(** * g-maps: a fluent facade over the Google Maps widget

    Shallow embedding of [src/g-maps.js].

    The JavaScript module defines a constructor [Map] and thirteen prototype
    methods.  Every method reads and mutates objects that are shared by
    reference (the facade itself, the marker objects stored in
    [this.markers], the widget stored in [this.map]), so the embedding keeps
    an explicit object store ([World]) and runs the methods in a state and
    exception monad ([M]): a JavaScript exception keeps the mutations made
    before it was thrown.

    The Google Maps library is not part of the repository.  The part of its
    interface the facade uses is modelled in [Module google] as plain
    storage (a marker keeps the options it was built from, [setMap] stores
    its argument, a widget keeps the zoom it is given); events are fired by
    the environment through [trigger], which runs the listeners with [this]
    bound to the object the event fired on.

    The values callers pass in are immutable data.  A user function is
    opaque: calling it is recorded in a trace of calls, it returns
    normally and it does not call back into the facade. *)

From Stdlib Require Import ZArith QArith String List Lia Bool DecimalString.
From stdpp Require Import base option list relations.

Open Scope string_scope.
Open Scope list_scope.

(* ===================================================================== *)
(** ** JavaScript values *)
(* ===================================================================== *)

(** A JavaScript number: a finite value (kept exactly, as a rational), NaN,
    or an infinity. *)
Inductive number : Type :=
  | Finite (q : Q)
  | NaN
  | Infinity (negative : bool).

(** User functions are opaque; they are identified by a name. *)
Definition fn := string.

(** The values callers hand to the facade: primitives, arrays, plain
    objects (ordered property lists) and functions. *)
#[warnings="-register-all"]
Inductive value : Type :=
  | VUndefined
  | VNull
  | VBool (b : bool)
  | VNumber (n : number)
  | VString (s : string)
  | VArray (items : list value)
  | VObject (props : list (string * value))
  | VFunction (f : fn).

(** Integer literals such as [4] or [7]. *)
Definition VInt (z : Z) : value := VNumber (Finite (inject_Z z)).

(** The [typeof] operator. *)
Definition typeof (v : value) : string :=
  match v with
  | VUndefined => "undefined"
  | VNull => "object"
  | VBool _ => "boolean"
  | VNumber _ => "number"
  | VString _ => "string"
  | VArray _ => "object"
  | VObject _ => "object"
  | VFunction _ => "function"
  end.

(** ToBoolean: the falsy values are undefined, null, false, 0, NaN and the
    empty string. *)
Definition truthy (v : value) : bool :=
  match v with
  | VUndefined | VNull => false
  | VBool b => b
  | VNumber (Finite q) => negb (Qeq_bool q 0)
  | VNumber NaN => false
  | VNumber (Infinity _) => true
  | VString s => negb (String.eqb s "")
  | VArray _ | VObject _ | VFunction _ => true
  end.

(** Exceptions. *)
Inductive error : Type :=
  | TypeError
  | ReferenceError
  | Error (message : string).

(** The outcome of evaluating an expression or running a statement. *)
Inductive completion (A : Type) : Type :=
  | Return (a : A)
  | Throw (e : error).
Arguments Return {A} a.
Arguments Throw {A} e.

(** First binding of a property name in an object literal's property list. *)
Fixpoint own_property (k : string) (props : list (string * value)) : option value :=
  match props with
  | [] => None
  | (k', v) :: rest => if String.eqb k k' then Some v else own_property k rest
  end.

(** [v.k] for a property name [k] that no built-in prototype defines (the
    source reads [icon], [latLng] and [maps] this way): a TypeError on
    undefined and null, the own property of a plain object, and undefined
    on everything else. *)
Definition get_prop (v : value) (k : string) : completion value :=
  match v with
  | VUndefined | VNull => Throw TypeError
  | VObject props => Return (default VUndefined (own_property k props))
  | _ => Return VUndefined
  end.

(** The property name of an array index. *)
Definition index_key (i : nat) : string := NilZero.string_of_uint (Nat.to_uint i).

(** [v[i]] for an index [i]: a TypeError on undefined and null, the element
    of an array (undefined past its end), the one-character string of a
    string, the property named by the index of a plain object, and
    undefined on everything else. *)
Definition get_index (v : value) (i : nat) : completion value :=
  match v with
  | VUndefined | VNull => Throw TypeError
  | VArray items => Return (default VUndefined (items !! i))
  | VString s =>
      Return (match String.get i s with
              | Some c => VString (String c EmptyString)
              | None => VUndefined
              end)
  | VObject props => Return (default VUndefined (own_property (index_key i) props))
  | _ => Return VUndefined
  end.

(* ===================================================================== *)
(** ** Objects of the Google Maps library *)
(* ===================================================================== *)

(** [google.maps.LatLng]: the two constructor arguments, uninterpreted. *)
Record LatLng : Type := { lat : value; lng : value }.

Inductive ZoomControlStyle : Type := DEFAULT | SMALL | LARGE.

Inductive ControlPosition : Type :=
  | TOP_LEFT | TOP_CENTER | TOP_RIGHT
  | LEFT_TOP | LEFT_CENTER | LEFT_BOTTOM
  | RIGHT_TOP | RIGHT_CENTER | RIGHT_BOTTOM
  | BOTTOM_LEFT | BOTTOM_CENTER | BOTTOM_RIGHT.

Record ZoomControlOptions : Type :=
  { style : ZoomControlStyle; control_position : ControlPosition }.

(** The object literal assigned to [this.mapOptions] (lines 91-102). *)
Record MapOptions : Type :=
  { zoom : value;
    disableDefaultUI : bool;
    scrollwheel : bool;
    zoomControl : bool;
    center : LatLng;
    zoomControlOptions : ZoomControlOptions;
    scaleControl : bool }.

(** References into the object store: [mref] to a google.maps.Marker,
    [wref] to a google.maps.Map widget, [fref] to a facade built by
    [new Map(elem, options)]. *)
Abbreviation mref := nat (only parsing).
Abbreviation wref := nat (only parsing).
Abbreviation fref := nat (only parsing).

(** A marker keeps the options object it was constructed from (lines
    147-152): [position], [icon], [map] and [data].  [marker_map] is what
    [setMap] changes; it is a widget or, as [None], null. *)
Record Marker : Type :=
  { position : LatLng;
    marker_icon : value;
    marker_map : option wref;
    data : value }.

(** A widget: the element and options it was constructed from, and its
    current centre and zoom. *)
Record Widget : Type :=
  { view : value;
    widget_options : MapOptions;
    current_center : LatLng;
    current_zoom : value }.

(* ===================================================================== *)
(** ** The facade object and the store *)
(* ===================================================================== *)

(** The fields the constructor [Map] assigns (lines 83-102). *)
Record Map : Type :=
  { map : option wref;
    markers : list mref;
    mapClickCallbacks : list value;
    mapZoomCallbacks : list value;
    elem : value;
    icon : value;
    mapOptions : MapOptions }.

(** What an event listener is attached to. *)
Inductive Target : Type :=
  | OnMarker (marker : mref)
  | OnWidget (widget : wref).

(** The three function expressions the source hands to [addListener], each
    with the variables it closes over. *)
Inductive Listener : Type :=
  | MarkerListener (callback : value)      (* lines 166-170 *)
  | MapClickListener (_this : fref)        (* lines 271-273 *)
  | MapZoomListener (_this : fref).        (* lines 276-278 *)

Record Registration : Type :=
  { target : Target; event_name : string; handler : Listener }.

(** The store: every facade, marker and widget allocated so far (a
    reference is an index), the registered event listeners in registration
    order, and the trace of calls made to user functions, oldest first. *)
Record World : Type :=
  { facades : list Map;
    marker_store : list Marker;
    widget_store : list Widget;
    listeners : list Registration;
    calls : list (fn * value) }.

Definition empty_world : World :=
  {| facades := []; marker_store := []; widget_store := [];
     listeners := []; calls := [] |}.

Definition with_facades (x : list Map) (w : World) : World :=
  {| facades := x; marker_store := marker_store w; widget_store := widget_store w;
     listeners := listeners w; calls := calls w |}.
Definition with_marker_store (x : list Marker) (w : World) : World :=
  {| facades := facades w; marker_store := x; widget_store := widget_store w;
     listeners := listeners w; calls := calls w |}.
Definition with_widget_store (x : list Widget) (w : World) : World :=
  {| facades := facades w; marker_store := marker_store w; widget_store := x;
     listeners := listeners w; calls := calls w |}.
Definition with_listeners (x : list Registration) (w : World) : World :=
  {| facades := facades w; marker_store := marker_store w; widget_store := widget_store w;
     listeners := x; calls := calls w |}.
Definition with_calls (x : list (fn * value)) (w : World) : World :=
  {| facades := facades w; marker_store := marker_store w; widget_store := widget_store w;
     listeners := listeners w; calls := x |}.

Definition with_map (x : option wref) (f : Map) : Map :=
  {| map := x; markers := markers f; mapClickCallbacks := mapClickCallbacks f;
     mapZoomCallbacks := mapZoomCallbacks f; elem := elem f; icon := icon f;
     mapOptions := mapOptions f |}.
Definition with_markers (x : list mref) (f : Map) : Map :=
  {| map := map f; markers := x; mapClickCallbacks := mapClickCallbacks f;
     mapZoomCallbacks := mapZoomCallbacks f; elem := elem f; icon := icon f;
     mapOptions := mapOptions f |}.
Definition with_mapClickCallbacks (x : list value) (f : Map) : Map :=
  {| map := map f; markers := markers f; mapClickCallbacks := x;
     mapZoomCallbacks := mapZoomCallbacks f; elem := elem f; icon := icon f;
     mapOptions := mapOptions f |}.
Definition with_mapZoomCallbacks (x : list value) (f : Map) : Map :=
  {| map := map f; markers := markers f; mapClickCallbacks := mapClickCallbacks f;
     mapZoomCallbacks := x; elem := elem f; icon := icon f;
     mapOptions := mapOptions f |}.

Definition with_marker_map (x : option wref) (m : Marker) : Marker :=
  {| position := position m; marker_icon := marker_icon m; marker_map := x;
     data := data m |}.
Definition with_current_zoom (x : value) (g : Widget) : Widget :=
  {| view := view g; widget_options := widget_options g; current_center := current_center g;
     current_zoom := x |}.
Definition with_current_center (x : LatLng) (g : Widget) : Widget :=
  {| view := view g; widget_options := widget_options g; current_center := x;
     current_zoom := current_zoom g |}.

(* ===================================================================== *)
(** ** The state and exception monad *)
(* ===================================================================== *)

(** A computation runs in a store and ends with a value or an exception; in
    both cases the store it leaves behind is kept. *)
Definition M (A : Type) : Type := World -> World * completion A.

Definition ret {A} (a : A) : M A := fun w => (w, Return a).
Definition throw {A} (e : error) : M A := fun w => (w, Throw e).
Definition bind {A B} (c : M A) (k : A -> M B) : M B :=
  fun w => match c w with
           | (w', Return a) => k a w'
           | (w', Throw e) => (w', Throw e)
           end.
Definition lift {A} (c : completion A) : M A := fun w => (w, c).
Definition get_world : M World := fun w => (w, Return w).
Definition modify (g : World -> World) : M unit := fun w => (g w, Return tt).

#[global] Instance M_ret : MRet M := @ret.
#[global] Instance M_bind : MBind M := fun A B k c => bind c k.

(** [for (i; i < j; i++) body]: [for_loop (j - i) i body]. *)
Fixpoint for_loop (n i : nat) (body : nat -> M unit) : M unit :=
  match n with
  | O => ret tt
  | S n' => body i ;; for_loop n' (S i) body
  end.
Definition for_ (i j : nat) (body : nat -> M unit) : M unit := for_loop (j - i) i body.

(** Reading and writing the fields of the facade [this]. *)
Definition deref (this : fref) : M Map :=
  w ← get_world;
  match facades w !! this with
  | Some f => ret f
  | None => throw TypeError
  end.
Definition update (this : fref) (g : Map -> Map) : M unit :=
  modify (fun w => with_facades (alter g this (facades w)) w).

(** Calling a value: a user function is recorded in the trace with its
    argument and returns normally; anything else is not callable. *)
Definition call (callee arg : value) : M unit :=
  match callee with
  | VFunction g => modify (fun w => with_calls (calls w ++ [(g, arg)]) w)
  | _ => throw TypeError
  end.

(* ===================================================================== *)
(** ** The part of the Google Maps interface the facade calls *)
(* ===================================================================== *)

Module google.
Module maps.

(** [new google.maps.LatLng(a, b)]. *)
Definition new_LatLng (a b : value) : LatLng := {| lat := a; lng := b |}.

(** [new google.maps.Marker(opts)]: a fresh marker holding [opts]. *)
Definition new_Marker (opts : Marker) : M mref :=
  fun w => (with_marker_store (marker_store w ++ [opts]) w,
            Return (length (marker_store w))).

(** [marker.setMap(_map)]. *)
Definition Marker_setMap (marker : mref) (_map : option wref) : M unit :=
  modify (fun w =>
    with_marker_store (alter (with_marker_map _map) marker (marker_store w)) w).

(** [new google.maps.Map(elem, opts)]: a fresh widget showing the centre
    and zoom of its options. *)
Definition new_Map (elem : value) (opts : MapOptions) : M wref :=
  fun w => (with_widget_store
              (widget_store w ++
                 [ {| view := elem; widget_options := opts;
                      current_center := center opts;
                      current_zoom := zoom opts |} ]) w,
            Return (length (widget_store w))).

(** [widget.setCenter(c)], [widget.setZoom(z)], [widget.getZoom()]. *)
Definition Map_setCenter (widget : wref) (c : LatLng) : M unit :=
  modify (fun w =>
    with_widget_store (alter (with_current_center c) widget (widget_store w)) w).
Definition Map_setZoom (widget : wref) (z : value) : M unit :=
  modify (fun w =>
    with_widget_store (alter (with_current_zoom z) widget (widget_store w)) w).
Definition Map_getZoom (widget : wref) : M value :=
  w ← get_world;
  match widget_store w !! widget with
  | Some g => ret (current_zoom g)
  | None => throw TypeError
  end.

Module event.
(** [google.maps.event.addListener(instance, eventName, handler)]. *)
Definition addListener (instance : Target) (eventName : string)
    (h : Listener) : M unit :=
  modify (fun w =>
    with_listeners
      (listeners w ++
         [ {| target := instance; event_name := eventName; handler := h |} ]) w).
End event.

End maps.
End google.

(* ===================================================================== *)
(** ** The module body: [defaultOptions], [Map] and its prototype *)
(* ===================================================================== *)

(** [defaultOptions.icon] (lines 77-80). *)
Definition defaultOptions_icon : value := VString "map-pin.png".

(** The literal of lines 91-102. *)
Definition initial_mapOptions : MapOptions :=
  {| zoom := VInt 4;
     disableDefaultUI := true;
     scrollwheel := false;
     zoomControl := true;
     center := google.maps.new_LatLng
                 (VNumber (Finite (47147354 # 1000000)))
                 (VNumber (Finite (16158813 # 1000000)));
     zoomControlOptions := {| style := LARGE; control_position := RIGHT_TOP |};
     scaleControl := false |}.

(** The object created by the [new] operator. *)
Definition allocate (object : Map) : M fref :=
  fun w => (with_facades (facades w ++ [object]) w, Return (length (facades w))).

(** [new Map(elem, options)] (lines 82-105).  The object is entered in the
    store once its fields are assigned: an exception inside the constructor
    leaves no reference to it. *)
Definition new_Map (elem options : value) : M fref :=
  options_icon ← lift (get_prop options "icon");
  let this :=
    {| map := None;
       markers := [];
       mapClickCallbacks := [];
       mapZoomCallbacks := [];
       elem := elem;
       icon := if truthy options_icon then options_icon else defaultOptions_icon;
       mapOptions := initial_mapOptions |} in
  allocate this.

(** [this.map.method(...)]: a TypeError while [this.map] is null. *)
Definition this_map (this : fref) : M wref :=
  f ← deref this;
  match map f with
  | Some widget => ret widget
  | None => throw TypeError
  end.

(** Lines 113-117. *)
Definition setCenter (this : fref) (latLng : value) : M fref :=
  a ← lift (get_index latLng 0);
  b ← lift (get_index latLng 1);
  let newLatLng := google.maps.new_LatLng a b in
  widget ← this_map this;
  google.maps.Map_setCenter widget newLatLng ;;
  ret this.

(** Lines 124-129. *)
Definition setZoom (this : fref) (zoom : value) : M fref :=
  (if String.eqb (typeof zoom) "number" then
     widget ← this_map this;
     google.maps.Map_setZoom widget zoom
   else ret tt) ;;
  ret this.

(** Lines 165-172. *)
Definition assignMarkerEvent (this : fref) (marker : mref) (event : string)
    (callback : value) : M fref :=
  google.maps.event.addListener (OnMarker marker) event (MarkerListener callback) ;;
  ret this.

(** [coordsArray[i].latLng[k]] (line 145). *)
Definition coordinate (entry : value) (k : nat) : completion value :=
  match get_prop entry "latLng" with
  | Return latLng => get_index latLng k
  | Throw e => Throw e
  end.

(** Lines 136-159. *)
Definition addMarkers (this : fref) (coordsArray : list value) (callback : value)
    : M fref :=
  let _this := this in
  let j := length coordsArray in
  for_ 0 j (fun i =>
    let entry := default VUndefined (coordsArray !! i) in
    a ← lift (coordinate entry 0);
    b ← lift (coordinate entry 1);
    let gLocation := google.maps.new_LatLng a b in
    f ← deref _this;
    marker ← google.maps.new_Marker
               {| position := gLocation;
                  marker_icon := icon f;
                  marker_map := map f;
                  data := entry |};
    assignMarkerEvent _this marker "click" callback ;;
    update this (fun f => with_markers (markers f ++ [marker]) f)) ;;
  ret this.

(** Lines 178-185; [_map] is a widget or null. *)
Definition setAllMap (this : fref) (_map : option wref) : M fref :=
  f ← deref this;
  let j := length (markers f) in
  for_ 0 j (fun i =>
    f ← deref this;
    match markers f !! i with
    | Some marker => google.maps.Marker_setMap marker _map
    | None => throw TypeError
    end) ;;
  ret this.

(** Lines 191-194. *)
Definition clearMarkers (this : fref) : M fref :=
  setAllMap this None ;;
  ret this.

(** Lines 200-203. *)
Definition showMarkers (this : fref) : M fref :=
  f ← deref this;
  setAllMap this (map f) ;;
  ret this.

(** Lines 209-213. *)
Definition deleteMarkers (this : fref) : M fref :=
  clearMarkers this ;;
  update this (with_markers []) ;;
  ret this.

(** Lines 219-224. *)
Definition registerMapZoomEvent (this : fref) (callback : value) : M fref :=
  (if String.eqb (typeof callback) "function" then
     update this (fun f => with_mapZoomCallbacks (mapZoomCallbacks f ++ [callback]) f)
   else ret tt) ;;
  ret this.

(** Lines 230-235. *)
Definition registerMapClickEvent (this : fref) (callback : value) : M fref :=
  (if String.eqb (typeof callback) "function" then
     update this (fun f => with_mapClickCallbacks (mapClickCallbacks f ++ [callback]) f)
   else ret tt) ;;
  ret this.

(** The property names [init] passes to [onMapInteract] (lines 272, 277). *)
Inductive arrayName : Type :=
  | name_mapClickCallbacks
  | name_mapZoomCallbacks.

(** [this[arrayName]]. *)
Definition array_property (f : Map) (name : arrayName) : list value :=
  match name with
  | name_mapClickCallbacks => mapClickCallbacks f
  | name_mapZoomCallbacks => mapZoomCallbacks f
  end.

(** Lines 241-250. *)
Definition onMapInteract (this : fref) (name : arrayName) (args : value) : M fref :=
  f ← deref this;
  let j := length (array_property f name) in
  for_ 0 j (fun i =>
    f ← deref this;
    call (default VUndefined (array_property f name !! i)) args) ;;
  ret this.

(** Lines 256-258. *)
Definition getZoom (this : fref) : M value :=
  widget ← this_map this;
  google.maps.Map_getZoom widget.

(** Lines 264-281. *)
Definition init (this : fref) : M fref :=
  let _this := this in
  f ← deref this;
  widget ← google.maps.new_Map (elem f) (mapOptions f);
  update this (with_map (Some widget)) ;;
  google.maps.event.addListener (OnWidget widget) "click" (MapClickListener _this) ;;
  google.maps.event.addListener (OnWidget widget) "zoom_changed" (MapZoomListener _this) ;;
  ret this.

(* ===================================================================== *)
(** ** Events *)
(* ===================================================================== *)

(** Identity of the objects events fire on. *)
Definition Target_eqb (a b : Target) : bool :=
  match a, b with
  | OnMarker x, OnMarker y => Nat.eqb x y
  | OnWidget x, OnWidget y => Nat.eqb x y
  | _, _ => false
  end.

(** [this.data] inside a listener, [this] being the object the event fired
    on. *)
Definition this_data (this : Target) : M value :=
  w ← get_world;
  match this with
  | OnMarker marker =>
      ret (match marker_store w !! marker with
           | Some m => data m
           | None => VUndefined
           end)
  | OnWidget _ => ret VUndefined
  end.

(** The bodies of the three listeners, run with [this] bound to the object
    the event fired on and [event] to the event's argument. *)
Definition run_listener (h : Listener) (this : Target) (event : value) : M unit :=
  match h with
  | MarkerListener callback =>
      if String.eqb (typeof callback) "function" then
        d ← this_data this;
        call callback d
      else ret tt
  | MapClickListener _this =>
      onMapInteract _this name_mapClickCallbacks event ;;
      ret tt
  | MapZoomListener _this =>
      z ← getZoom _this;
      onMapInteract _this name_mapZoomCallbacks z ;;
      ret tt
  end.

(** The listeners [rs] run one after the other; an exception ends the
    dispatch. *)
Fixpoint run_listeners (rs : list Registration) (this : Target) (event : value)
    : M unit :=
  match rs with
  | [] => ret tt
  | r :: rest => run_listener (handler r) this event ;; run_listeners rest this event
  end.

(** The registration [r] is for [eventName] on [instance]. *)
Definition listens (instance : Target) (eventName : string) (r : Registration) : bool :=
  Target_eqb (target r) instance && String.eqb (event_name r) eventName.

(** The library firing [eventName] on [instance]: the listeners registered
    for it run in registration order. *)
Definition trigger (instance : Target) (eventName : string) (event : value) : M unit :=
  w ← get_world;
  run_listeners (List.filter (listens instance eventName) (listeners w)) instance event.

(* ===================================================================== *)
(** ** Fluent chains *)
(* ===================================================================== *)

(** One link of a chain [gmap.deleteMarkers().setCenter(latLng).setZoom(7)...]. *)
Inductive Call : Type :=
  | call_setCenter (latLng : value)
  | call_setZoom (zoom : value)
  | call_addMarkers (coordsArray : list value) (callback : value)
  | call_assignMarkerEvent (marker : mref) (event : string) (callback : value)
  | call_setAllMap (_map : option wref)
  | call_clearMarkers
  | call_showMarkers
  | call_deleteMarkers
  | call_registerMapZoomEvent (callback : value)
  | call_registerMapClickEvent (callback : value)
  | call_onMapInteract (name : arrayName) (args : value)
  | call_init.

(** [this.c(...)]. *)
Definition invoke (this : fref) (c : Call) : M fref :=
  match c with
  | call_setCenter latLng => setCenter this latLng
  | call_setZoom zoom => setZoom this zoom
  | call_addMarkers coordsArray callback => addMarkers this coordsArray callback
  | call_assignMarkerEvent marker event callback =>
      assignMarkerEvent this marker event callback
  | call_setAllMap _map => setAllMap this _map
  | call_clearMarkers => clearMarkers this
  | call_showMarkers => showMarkers this
  | call_deleteMarkers => deleteMarkers this
  | call_registerMapZoomEvent callback => registerMapZoomEvent this callback
  | call_registerMapClickEvent callback => registerMapClickEvent this callback
  | call_onMapInteract name args => onMapInteract this name args
  | call_init => init this
  end.

(** Each call is made on the facade the previous one returned. *)
Fixpoint chain (this : fref) (cs : list Call) : M fref :=
  match cs with
  | [] => ret this
  | c :: rest => this' ← invoke this c; chain this' rest
  end.

(* ===================================================================== *)
(** ** Loading the library (lines 66-75 and 284-288) *)
(* ===================================================================== *)

(** The jQuery deferred [$promise]: pending, or resolved with the
    constructor [Map]. *)
Inductive Deferred : Type :=
  | pending
  | resolved_with_Map.

(** [$promise.resolve(Map)]. *)
Definition resolve (promise : Deferred) : Deferred := resolved_with_Map.

(** The condition [!google && !google.maps] of line 73.  The global
    [google] is [None] when the identifier is not declared.  [&&] evaluates
    its right operand only when the left one is true. *)
Definition library_missing (google : option value) : completion bool :=
  match google with
  | None => Throw ReferenceError
  | Some g =>
      if negb (truthy g) then
        match get_prop g "maps" with
        | Return google_maps => Return (negb (truthy google_maps))
        | Throw e => Throw e
        end
      else Return false
  end.

(** The callback handed to [require] (lines 70-286): the guard, the
    definitions of [Map] and its prototype, then [$promise.resolve(Map)]. *)
Definition require_callback (google : option value) (promise : Deferred)
    : Deferred * completion unit :=
  match library_missing google with
  | Throw e => (promise, Throw e)
  | Return true => (promise, Throw (Error "Maps library could not be loaded!"))
  | Return false => (resolve promise, Return tt)
  end.

(* ===================================================================== *)
(** ** Definitions used in the statements *)
(* ===================================================================== *)

(** The marker store after [setMap(_map)] on each of [rs] in turn. *)
Definition setMap_each (_map : option wref) (rs : list mref) (store : list Marker)
    : list Marker :=
  foldl (fun h r => alter (with_marker_map _map) r h) store rs.

(** An entry whose [latLng[0]] and [latLng[1]] can be read (line 145). *)
Definition valid_entry (entry : value) : bool :=
  match coordinate entry 0, coordinate entry 1 with
  | Return _, Return _ => true
  | _, _ => false
  end.

(** The value of an expression that did not throw. *)
Definition completed (c : completion value) : value :=
  match c with
  | Return v => v
  | Throw _ => VUndefined
  end.

(** The options object of lines 147-152 for [entry]. *)
Definition marker_for (f : Map) (entry : value) : Marker :=
  {| position := google.maps.new_LatLng (completed (coordinate entry 0))
                                        (completed (coordinate entry 1));
     marker_icon := icon f;
     marker_map := map f;
     data := entry |}.

(** The registration made by line 154 for the marker [r]. *)
Definition click_registration (callback : value) (r : mref) : Registration :=
  {| target := OnMarker r; event_name := "click"; handler := MarkerListener callback |}.

(** The store after [addMarkers] has gone through [entries]. *)
Definition added (this : fref) (f : Map) (entries : list value) (callback : value)
    (w : World) : World :=
  let fresh := seq (length (marker_store w)) (length entries) in
  {| facades := <[this := with_markers (markers f ++ fresh) f]> (facades w);
     marker_store := marker_store w ++ (marker_for f <$> entries);
     widget_store := widget_store w;
     listeners := listeners w ++ (click_registration callback <$> fresh);
     calls := calls w |}.

(** The trace entries of calling each of [gs] with [args]. *)
Definition called_with (args : value) (gs : list fn) : list (fn * value) :=
  (fun g => (g, args)) <$> gs.

(** Every registered listener is attached to an object that exists. *)
Definition listeners_allocated (w : World) : Prop :=
  Forall (fun reg =>
            match target reg with
            | OnMarker r => r < length (marker_store w)
            | OnWidget r => r < length (widget_store w)
            end) (listeners w).

(** The calls that only add to the facade's three lists. *)
Definition only_adds (c : Call) : bool :=
  match c with
  | call_addMarkers _ _ | call_registerMapZoomEvent _ | call_registerMapClickEvent _ => true
  | _ => false
  end.

(** The entries handed to [addMarkers] by a chain, in order. *)
Fixpoint added_entries (cs : list Call) : list value :=
  match cs with
  | [] => []
  | call_addMarkers coordsArray _ :: rest => coordsArray ++ added_entries rest
  | _ :: rest => added_entries rest
  end.

(** The functions handed to [registerMapClickEvent] by a chain, in order. *)
Fixpoint added_clicks (cs : list Call) : list value :=
  match cs with
  | [] => []
  | call_registerMapClickEvent callback :: rest =>
      (if String.eqb (typeof callback) "function" then [callback] else [])
      ++ added_clicks rest
  | _ :: rest => added_clicks rest
  end.

(** The functions handed to [registerMapZoomEvent] by a chain, in order. *)
Fixpoint added_zooms (cs : list Call) : list value :=
  match cs with
  | [] => []
  | call_registerMapZoomEvent callback :: rest =>
      (if String.eqb (typeof callback) "function" then [callback] else [])
      ++ added_zooms rest
  | _ :: rest => added_zooms rest
  end.

(** The facade [f] with [ms], [cl] and [zm] appended to its three lists. *)
Definition extended (f : Map) (ms : list mref) (cl zm : list value) : Map :=
  {| map := map f;
     markers := markers f ++ ms;
     mapClickCallbacks := mapClickCallbacks f ++ cl;
     mapZoomCallbacks := mapZoomCallbacks f ++ zm;
     elem := elem f;
     icon := icon f;
     mapOptions := mapOptions f |}.

(** The computation [c] keeps the property [I] of the store, whether it
    returns or throws. *)
Definition preserves {A} (I : World -> Prop) (c : M A) : Prop :=
  forall w, I w -> I (fst (c w)).

(** The [map] field of every facade. *)
Definition facade_maps (w : World) : list (option wref) := map <$> facades w.

(** A computation that leaves the [map] field of every facade as it is. *)
Definition keeps_maps {A} (c : M A) : Prop :=
  forall ms, preserves (fun w => facade_maps w = ms) c.

(** The facade [new Map(elem, options)] builds when [options.icon] is
    [options_icon]. *)
Definition constructed (elem options_icon : value) : Map :=
  {| map := None;
     markers := [];
     mapClickCallbacks := [];
     mapZoomCallbacks := [];
     elem := elem;
     icon := if truthy options_icon then options_icon else defaultOptions_icon;
     mapOptions := initial_mapOptions |}.

(** The widget [init] constructs for the facade [f]. *)
Definition widget_of (f : Map) : Widget :=
  {| view := elem f;
     widget_options := mapOptions f;
     current_center := center (mapOptions f);
     current_zoom := zoom (mapOptions f) |}.

(** The entries [{latLng: [1, 2], data: {a: 1}}] and
    [{latLng: [3, 4], data: {b: 2}}]. *)
Definition entry_a : value :=
  VObject [("latLng", VArray [VInt 1; VInt 2]); ("data", VObject [("a", VInt 1)])].
Definition entry_b : value :=
  VObject [("latLng", VArray [VInt 3; VInt 4]); ("data", VObject [("b", VInt 2)])].

(** [gmap = new Map(mapDiv, {})], before and after [gmap.init()], and after
    [gmap.addMarkers([entry_a, entry_b], onPin)]. *)
Definition new_world : World :=
  fst (new_Map (VString "#map") (VObject []) empty_world).
Definition live_world : World := fst (init 0 new_world).
Definition pinned_world : World :=
  fst (addMarkers 0 [entry_a; entry_b] (VFunction "onPin") live_world).

(** The facade [gmap] in those three stores. *)
Definition new_facade : Map := constructed (VString "#map") VUndefined.
Definition live_facade : Map := with_map (Some 0) new_facade.
Definition pinned_facade : Map := with_markers [0; 1] live_facade.

(** Registering the functions [gs] one after the other. *)
Definition register_clicks (gs : list fn) : list Call :=
  (fun g => call_registerMapClickEvent (VFunction g)) <$> gs.
Definition register_zooms (gs : list fn) : list Call :=
  (fun g => call_registerMapZoomEvent (VFunction g)) <$> gs.

(** A chain of registrations and additions. *)
Definition adding_chain : list Call :=
  [call_registerMapClickEvent (VFunction "onClick");
   call_addMarkers [entry_a; entry_b] (VFunction "onPin");
   call_registerMapZoomEvent (VFunction "onZoom");
   call_registerMapClickEvent VNull;
   call_addMarkers [entry_b] VUndefined].

(** [typeof v === 'function']. *)
Definition callable (v : value) : Prop := typeof v = "function".

(** A facade whose handles and widget exist and whose callback lists hold
    functions only. *)
Record facade_ok (nm nw : nat) (f : Map) : Prop :=
  { markers_allocated : Forall (fun r => r < nm) (markers f);
    map_allocated : forall widget, map f = Some widget -> widget < nw;
    clicks_callable : Forall callable (mapClickCallbacks f);
    zooms_callable : Forall callable (mapZoomCallbacks f) }.

(** A listener attached to an object that exists, for a facade that
    exists. *)
Definition registration_ok (nm nw nf : nat) (reg : Registration) : Prop :=
  match target reg with
  | OnMarker r => r < nm
  | OnWidget r => r < nw
  end
  /\ match handler reg with
     | MarkerListener _ => True
     | MapClickListener _this | MapZoomListener _this => _this < nf
     end.

(** Every facade and every listener of the store is in order. *)
Definition well_formed (w : World) : Prop :=
  Forall (facade_ok (length (marker_store w)) (length (widget_store w))) (facades w)
  /\ Forall (registration_ok (length (marker_store w)) (length (widget_store w))
               (length (facades w))) (listeners w).

(** A call that names a marker names one that exists. *)
Definition names_existing (c : Call) (w : World) : Prop :=
  match c with
  | call_assignMarkerEvent marker _ _ => marker < length (marker_store w)
  | _ => True
  end.

(** One step of the page's life: a facade is constructed, a method is
    called (one of the calls [allowed] lets through), or the library fires
    an event. *)
Inductive step (allowed : Call -> World -> Prop) : World -> World -> Prop :=
  | step_new (elem options : value) (w : World) :
      step allowed w (fst (new_Map elem options w))
  | step_invoke (this : fref) (c : Call) (w : World) :
      allowed c w -> step allowed w (fst (invoke this c w))
  | step_getZoom (this : fref) (w : World) :
      step allowed w (fst (getZoom this w))
  | step_trigger (instance : Target) (eventName : string) (event : value) (w : World) :
      step allowed w (fst (trigger instance eventName event w)).

(** A call that attaches no further listener to the marker [r]. *)
Definition spares (r : mref) (c : Call) (w : World) : Prop :=
  match c with
  | call_assignMarkerEvent marker _ _ => marker <> r
  | _ => True
  end.

(** The marker [r] holds [d] and its click listeners are [regs]. *)
Definition marker_settled (r : mref) (d : value) (regs : list Registration)
    (w : World) : Prop :=
  (data <$> marker_store w !! r) = Some d
  /\ List.filter (listens (OnMarker r) "click") (listeners w) = regs.

(** The registration [assignMarkerEvent(r, eventName, g)] makes for a
    function [g]. *)
Definition function_listener (r : mref) (eventName : string) (g : fn) : Registration :=
  {| target := OnMarker r; event_name := eventName;
     handler := MarkerListener (VFunction g) |}.

(** A listener [init] installed belongs to a facade that has its widget. *)
Definition ready (w : World) (h : Listener) : Prop :=
  match h with
  | MarkerListener _ => True
  | MapClickListener _this | MapZoomListener _this =>
      exists f widget, facades w !! _this = Some f /\ map f = Some widget
  end.

(** Every registered listener is ready. *)
Definition wired (w : World) : Prop :=
  Forall (fun reg => ready w (handler reg)) (listeners w).

(** What no step takes away: the store [w'] still has every listener and
    every recorded call of [w], in the same order and before any new one;
    every marker of [w] with its position, icon and data; every facade of
    [w] with its element, icon and widget options, and with the callbacks
    it had, in the same order and before any new one. *)
Record grows (w w' : World) : Prop :=
  { grows_listeners : listeners w `prefix_of` listeners w';
    grows_calls : calls w `prefix_of` calls w';
    grows_markers :
      forall r m, marker_store w !! r = Some m ->
        exists m', marker_store w' !! r = Some m'
                   /\ position m' = position m
                   /\ marker_icon m' = marker_icon m
                   /\ data m' = data m;
    grows_widgets :
      forall r g, widget_store w !! r = Some g ->
        exists g', widget_store w' !! r = Some g'
                   /\ view g' = view g
                   /\ widget_options g' = widget_options g;
    grows_facades :
      forall t f, facades w !! t = Some f ->
        exists f', facades w' !! t = Some f'
                   /\ elem f' = elem f
                   /\ icon f' = icon f
                   /\ mapOptions f' = mapOptions f
                   /\ mapClickCallbacks f `prefix_of` mapClickCallbacks f'
                   /\ mapZoomCallbacks f `prefix_of` mapZoomCallbacks f' }.

(** The two stores differ at most in the facade [this]: every other
    facade, every marker, every widget, every listener and the trace of
    calls are the same. *)
Definition only_facade_differs (this : fref) (w w' : World) : Prop :=
  length (facades w') = length (facades w)
  /\ (forall other, other <> this -> facades w' !! other = facades w !! other)
  /\ marker_store w' = marker_store w
  /\ widget_store w' = widget_store w
  /\ listeners w' = listeners w
  /\ calls w' = calls w.

(** [pinned_world] after [gmap.clearMarkers()]: both markers on no map. *)
Definition hidden_world : World := fst (clearMarkers 0 pinned_world).

(** A second facade [other = new Map(mapDiv2, {})], never initialised,
    with one marker that [other.setAllMap(gmap.map)] has put on the first
    facade's widget. *)
Definition borrowed_world : World :=
  fst ((other ← new_Map (VString "#second") (VObject []);
        chain other [call_addMarkers [entry_a] (VFunction "onPin");
                     call_setAllMap (Some 0)]) live_world).
Definition borrowed_facade : Map :=
  with_markers [0] (constructed (VString "#second") VUndefined).

(** The functions among the values of a callback list. *)
Definition functions (l : list value) : list fn :=
  omap (fun v => match v with VFunction g => Some g | _ => None end) l.

(** The calls the listener [h] makes when an event with argument [event]
    fires on [this] in the store [w] (lines 166-170, 271-273, 276-278). *)
Definition listener_calls (w : World) (this : Target) (event : value) (h : Listener)
    : list (fn * value) :=
  match h with
  | MarkerListener (VFunction g) =>
      [(g, match this with
           | OnMarker r =>
               match marker_store w !! r with
               | Some m => data m
               | None => VUndefined
               end
           | OnWidget _ => VUndefined
           end)]
  | MarkerListener _ => []
  | MapClickListener _this =>
      match facades w !! _this with
      | Some f => called_with event (functions (mapClickCallbacks f))
      | None => []
      end
  | MapZoomListener _this =>
      match facades w !! _this with
      | Some f =>
          match map f with
          | Some widget =>
              match widget_store w !! widget with
              | Some g => called_with (current_zoom g) (functions (mapZoomCallbacks f))
              | None => []
              end
          | None => []
          end
      | None => []
      end
  end.

(** The calls of every listener registered for [eventName] on [instance],
    in registration order. *)
Definition event_calls (w : World) (instance : Target) (eventName : string)
    (event : value) : list (fn * value) :=
  List.flat_map (fun reg => listener_calls w instance event (handler reg))
    (List.filter (listens instance eventName) (listeners w)).

(** The listener [h] finds all it reads in the store [w]: a map listener
    finds its facade, every entry of the callback list it walks is a
    function, and the zoom_changed listener finds the facade's widget. *)
Definition listener_complete (w : World) (h : Listener) : Prop :=
  match h with
  | MarkerListener _ => True
  | MapClickListener _this =>
      exists f,
        facades w !! _this = Some f
        /\ mapClickCallbacks f = VFunction <$> functions (mapClickCallbacks f)
  | MapZoomListener _this =>
      exists f widget g,
        facades w !! _this = Some f
        /\ map f = Some widget
        /\ widget_store w !! widget = Some g
        /\ mapZoomCallbacks f = VFunction <$> functions (mapZoomCallbacks f)
  end.

(** [pinned_world] after [gmap.registerMapZoomEvent(onZoom)]. *)
Definition watched_world : World :=
  fst (registerMapZoomEvent 0 (VFunction "onZoom") pinned_world).

(* ===================================================================== *)
(** ** Running computations *)
(* ===================================================================== *)

(** Unfolding the monad's operations and the library's one-line
    operations, then computing. *)
Create HintDb run.
#[global] Hint Unfold mbind M_bind bind mret M_ret ret throw lift get_world modify
  update allocate
  google.maps.new_Marker google.maps.Marker_setMap google.maps.new_Map
  google.maps.Map_setCenter google.maps.Map_setZoom google.maps.Map_getZoom
  google.maps.event.addListener assignMarkerEvent : run.

Ltac run := repeat (progress (autounfold with run; cbn)).

Lemma run_bind {A B} (c : M A) (k : A -> M B) (w : World) :
  (c ≫= k) w =
  match c w with
  | (w', Return a) => k a w'
  | (w', Throw e) => (w', Throw e)
  end.
Proof. reflexivity. Qed.

Lemma run_bind_Return {A B} (c : M A) (k : A -> M B) (w w' : World) (a : A) :
  c w = (w', Return a) -> (c ≫= k) w = k a w'.
Proof. intros H. rewrite run_bind, H. reflexivity. Qed.

Lemma run_bind_Throw {A B} (c : M A) (k : A -> M B) (w w' : World) (e : error) :
  c w = (w', Throw e) -> (c ≫= k) w = (w', Throw e).
Proof. intros H. rewrite run_bind, H. reflexivity. Qed.

Lemma run_bind_lift {A B} (c : completion A) (k : A -> M B) (w : World) (a : A) :
  c = Return a -> (lift c ≫= k) w = k a w.
Proof. intros ->. reflexivity. Qed.

Lemma run_bind_lift_Throw {A B} (c : completion A) (k : A -> M B) (w : World) e :
  c = Throw e -> (lift c ≫= k) w = (w, Throw e).
Proof. intros ->. reflexivity. Qed.

Lemma run_deref (this : fref) (f : Map) (w : World) :
  facades w !! this = Some f -> deref this w = (w, Return f).
Proof. intros H. unfold deref. rewrite run_bind. cbn. rewrite H. reflexivity. Qed.

Lemma run_deref_dangling (this : fref) (w : World) :
  facades w !! this = None -> deref this w = (w, Throw TypeError).
Proof. intros H. unfold deref. rewrite run_bind. cbn. rewrite H. reflexivity. Qed.

Lemma run_update (this : fref) (g : Map -> Map) (w : World) :
  update this g w = (with_facades (alter g this (facades w)) w, Return tt).
Proof. reflexivity. Qed.

Lemma with_marker_store_id (w : World) : with_marker_store (marker_store w) w = w.
Proof. destruct w; reflexivity. Qed.

Lemma with_facades_id (w : World) : with_facades (facades w) w = w.
Proof. destruct w; reflexivity. Qed.

Lemma with_calls_id (w : World) : with_calls (calls w) w = w.
Proof. destruct w; reflexivity. Qed.

Lemma with_markers_id (f : Map) : with_markers (markers f) f = f.
Proof. destruct f; reflexivity. Qed.

Lemma alter_is_insert {A} (g : A -> A) (i : nat) (l : list A) (x : A) :
  l !! i = Some x -> alter g i l = <[i := g x]> l.
Proof.
  revert i. induction l as [|y l IH]; intros [|i] H; simpl in *; try discriminate.
  - injection H as ->. reflexivity.
  - f_equal. apply IH, H.
Qed.

(* ===================================================================== *)
(** ** [setAllMap], [clearMarkers], [showMarkers], [deleteMarkers] *)
(* ===================================================================== *)

Lemma setMap_each_length _map rs store :
  length (setMap_each _map rs store) = length store.
Proof.
  unfold setMap_each. revert store.
  induction rs as [|r rs IH]; intros store; simpl; [reflexivity|].
  rewrite IH. apply length_alter.
Qed.

Lemma setMap_each_stored _map rs store (r : mref) :
  r ∈ rs ->
  setMap_each _map rs store !! r = with_marker_map _map <$> store !! r.
Proof.
  unfold setMap_each. revert store.
  induction rs as [|r' rs IH]; intros store Hin; simpl.
  - inversion Hin.
  - destruct (decide (r ∈ rs)) as [Hrs|Hrs].
    + rewrite (IH _ Hrs).
      destruct (decide (r' = r)) as [->|Hne].
      * rewrite list_lookup_alter_eq. destruct (store !! r) as [[]|]; reflexivity.
      * rewrite list_lookup_alter_ne by exact Hne. reflexivity.
    + assert (r = r') as <- by (inversion Hin; subst; [reflexivity | contradiction]).
      clear IH Hin. revert store.
      assert (forall store : list Marker, foldl (fun h r0 => alter (with_marker_map _map) r0 h) store rs !! r
                            = store !! r) as Hother.
      { induction rs as [|x rs IH]; intros store; simpl; [reflexivity|].
        rewrite IH by (intros ?; apply Hrs; right; assumption).
        apply list_lookup_alter_ne. intros ->. apply Hrs. left. }
      intros store. rewrite Hother. apply list_lookup_alter_eq.
Qed.

Lemma setMap_each_other _map rs store (r : mref) :
  r ∉ rs -> setMap_each _map rs store !! r = store !! r.
Proof.
  unfold setMap_each. revert store.
  induction rs as [|x rs IH]; intros store Hrs; simpl; [reflexivity|].
  rewrite IH by (intros ?; apply Hrs; right; assumption).
  apply list_lookup_alter_ne. intros ->. apply Hrs. left.
Qed.

(** The same, read field by field. *)
Lemma setMap_each_stored_fields _map rs store (r : mref) (m : Marker) :
  r ∈ rs -> store !! r = Some m ->
  exists m',
    setMap_each _map rs store !! r = Some m'
    /\ marker_map m' = _map
    /\ position m' = position m
    /\ marker_icon m' = marker_icon m
    /\ data m' = data m.
Proof.
  intros Hr Hm. exists (with_marker_map _map m).
  rewrite (setMap_each_stored _ _ _ _ Hr), Hm. repeat split; reflexivity.
Qed.

Lemma setAllMap_loop (this : fref) (_map : option wref) (f : Map) :
  forall (n i : nat) (w : World),
    facades w !! this = Some f ->
    i + n <= length (markers f) ->
    for_loop n i (fun i =>
      f ← deref this;
      match markers f !! i with
      | Some marker => google.maps.Marker_setMap marker _map
      | None => throw TypeError
      end) w
    = (with_marker_store
         (setMap_each _map (take n (drop i (markers f))) (marker_store w)) w,
       Return tt).
Proof.
  induction n as [|n IH]; intros i w Hf Hlen; simpl.
  - rewrite with_marker_store_id. reflexivity.
  - destruct (lookup_lt_is_Some_2 (markers f) i ltac:(lia)) as [r Hr].
    rewrite run_bind, (run_bind_Return _ _ _ _ _ (run_deref _ _ _ Hf)), Hr.
    cbn.
    rewrite IH by first [exact Hf | lia].
    rewrite (drop_S _ _ _ Hr). cbn.
    reflexivity.
Qed.

Lemma run_setAllMap (this : fref) (_map : option wref) (f : Map) (w : World) :
  facades w !! this = Some f ->
  setAllMap this _map w
  = (with_marker_store (setMap_each _map (markers f) (marker_store w)) w,
     Return this).
Proof.
  intros Hf. unfold setAllMap.
  rewrite (run_bind_Return _ _ _ _ _ (run_deref _ _ _ Hf)).
  rewrite run_bind. unfold for_.
  rewrite (setAllMap_loop this _map f) by (try exact Hf; lia).
  rewrite Nat.sub_0_r, drop_0, firstn_all. reflexivity.
Qed.

Lemma run_clearMarkers (this : fref) (f : Map) (w : World) :
  facades w !! this = Some f ->
  clearMarkers this w
  = (with_marker_store (setMap_each None (markers f) (marker_store w)) w,
     Return this).
Proof.
  intros Hf. unfold clearMarkers.
  rewrite (run_bind_Return _ _ _ _ _ (run_setAllMap _ _ _ _ Hf)). reflexivity.
Qed.

Lemma run_showMarkers (this : fref) (f : Map) (w : World) :
  facades w !! this = Some f ->
  showMarkers this w
  = (with_marker_store (setMap_each (map f) (markers f) (marker_store w)) w,
     Return this).
Proof.
  intros Hf. unfold showMarkers.
  rewrite (run_bind_Return _ _ _ _ _ (run_deref _ _ _ Hf)).
  rewrite (run_bind_Return _ _ _ _ _ (run_setAllMap _ _ _ _ Hf)). reflexivity.
Qed.

Lemma run_deleteMarkers (this : fref) (f : Map) (w : World) :
  facades w !! this = Some f ->
  deleteMarkers this w
  = (with_facades (<[this := with_markers [] f]> (facades w))
       (with_marker_store (setMap_each None (markers f) (marker_store w)) w),
     Return this).
Proof.
  intros Hf. unfold deleteMarkers.
  rewrite (run_bind_Return _ _ _ _ _ (run_clearMarkers _ _ _ Hf)).
  rewrite run_bind, run_update. cbn.
  rewrite (alter_is_insert _ _ _ _ Hf). reflexivity.
Qed.

(* ===================================================================== *)
(** ** [addMarkers] *)
(* ===================================================================== *)

Lemma added_nil this f callback w :
  facades w !! this = Some f -> added this f [] callback w = w.
Proof.
  intros Hf. unfold added. cbn.
  rewrite !app_nil_r, with_markers_id, (list_insert_id _ _ _ Hf).
  destruct w; reflexivity.
Qed.

Lemma added_cons this f e entries callback w :
  facades w !! this = Some f ->
  added this (with_markers (markers f ++ [length (marker_store w)]) f) entries callback
    (added this f [e] callback w)
  = added this f (e :: entries) callback w.
Proof.
  intros Hf. unfold added. cbn.
  rewrite list_insert_insert_eq, !length_app. cbn.
  rewrite Nat.add_1_r, <- !app_assoc. reflexivity.
Qed.

Lemma addMarkers_loop (this : fref) (coordsArray : list value) (callback : value)
    (body : nat -> M unit) :
  (forall i w f e,
     facades w !! this = Some f -> coordsArray !! i = Some e ->
     valid_entry e = true ->
     body i w = (added this f [e] callback w, Return tt)) ->
  forall (n i : nat) (w : World) (f : Map),
    facades w !! this = Some f ->
    i + n = length coordsArray ->
    Forall (fun entry => valid_entry entry = true) (drop i coordsArray) ->
    for_loop n i body w = (added this f (drop i coordsArray) callback w, Return tt).
Proof.
  intros Hbody.
  induction n as [|n IH]; intros i w f Hf Hlen Hvalid.
  - rewrite drop_ge by lia. rewrite (added_nil _ _ _ _ Hf). reflexivity.
  - destruct (lookup_lt_is_Some_2 coordsArray i ltac:(lia)) as [e He].
    rewrite (drop_S _ _ _ He) in Hvalid |- *.
    apply Forall_cons in Hvalid as [Hv Hrest].
    cbn [for_loop]. rewrite run_bind, (Hbody _ _ _ _ Hf He Hv).
    rewrite (IH (S i) _ (with_markers (markers f ++ [length (marker_store w)]) f)).
    + rewrite (added_cons _ _ _ _ _ _ Hf). reflexivity.
    + unfold added. cbn. apply list_lookup_insert_eq.
      apply lookup_lt_Some in Hf. exact Hf.
    + lia.
    + exact Hrest.
Qed.

Lemma run_addMarkers (this : fref) (coordsArray : list value) (callback : value)
    (f : Map) (w : World) :
  facades w !! this = Some f ->
  Forall (fun entry => valid_entry entry = true) coordsArray ->
  addMarkers this coordsArray callback w
  = (added this f coordsArray callback w, Return this).
Proof.
  intros Hf Hvalid. unfold addMarkers. cbv zeta.
  rewrite run_bind. unfold for_.
  erewrite (addMarkers_loop this coordsArray callback); try eassumption.
  - rewrite drop_0. reflexivity.
  - clear. intros i w f e Hf He Hv.
    unfold valid_entry in Hv.
    destruct (coordinate e 0) as [a|] eqn:Ha; [|discriminate].
    destruct (coordinate e 1) as [b|] eqn:Hb; [|discriminate].
    rewrite He. simpl default.
    rewrite (run_bind_lift _ _ _ _ Ha), (run_bind_lift _ _ _ _ Hb).
    rewrite (run_bind_Return _ _ _ _ _ (run_deref _ _ _ Hf)).
    unfold added. cbn. unfold marker_for. rewrite Ha, Hb.
    run. rewrite (alter_is_insert _ _ _ _ Hf). reflexivity.
  - lia.
Qed.

(* ===================================================================== *)
(** ** [setZoom], [getZoom] and the two registration methods *)
(* ===================================================================== *)

Lemma typeof_number (v : value) :
  typeof v = "number" <-> exists n, v = VNumber n.
Proof.
  split.
  - destruct v; cbn; try discriminate. eauto.
  - intros [n ->]. reflexivity.
Qed.

Lemma typeof_function (v : value) :
  typeof v = "function" <-> exists g, v = VFunction g.
Proof.
  split.
  - destruct v; cbn; try discriminate. eauto.
  - intros [g ->]. reflexivity.
Qed.

Lemma run_this_map (this : fref) (f : Map) (widget : wref) (w : World) :
  facades w !! this = Some f -> map f = Some widget ->
  this_map this w = (w, Return widget).
Proof.
  intros Hf Hmap. unfold this_map.
  rewrite (run_bind_Return _ _ _ _ _ (run_deref _ _ _ Hf)), Hmap. reflexivity.
Qed.

Lemma run_this_map_null (this : fref) (f : Map) (w : World) :
  facades w !! this = Some f -> map f = None ->
  this_map this w = (w, Throw TypeError).
Proof.
  intros Hf Hmap. unfold this_map.
  rewrite (run_bind_Return _ _ _ _ _ (run_deref _ _ _ Hf)), Hmap. reflexivity.
Qed.

Lemma run_setZoom_other (this : fref) (zoom : value) (w : World) :
  typeof zoom <> "number" -> setZoom this zoom w = (w, Return this).
Proof.
  intros Hty. unfold setZoom.
  destruct (String.eqb_spec (typeof zoom) "number") as [E|_]; [contradiction|].
  reflexivity.
Qed.

Lemma run_setZoom_number (this : fref) (n : number) (f : Map) (widget : wref)
    (g : Widget) (w : World) :
  facades w !! this = Some f -> map f = Some widget ->
  widget_store w !! widget = Some g ->
  setZoom this (VNumber n) w
  = (with_widget_store
       (<[widget := with_current_zoom (VNumber n) g]> (widget_store w)) w,
     Return this).
Proof.
  intros Hf Hmap Hg. unfold setZoom. simpl (String.eqb _ _).
  rewrite run_bind.
  rewrite (run_bind_Return _ _ _ _ _ (run_this_map _ _ _ _ Hf Hmap)).
  run. rewrite (alter_is_insert _ _ _ _ Hg). reflexivity.
Qed.

(** Before [init], [this.map] is null and [this.map.setZoom] cannot be
    called. *)
Lemma run_setZoom_before_init (this : fref) (n : number) (f : Map) (w : World) :
  facades w !! this = Some f -> map f = None ->
  setZoom this (VNumber n) w = (w, Throw TypeError).
Proof.
  intros Hf Hmap. unfold setZoom. simpl (String.eqb _ _).
  rewrite run_bind.
  rewrite (run_bind_Throw _ _ _ _ _ (run_this_map_null _ _ _ Hf Hmap)).
  reflexivity.
Qed.

Lemma run_getZoom (this : fref) (f : Map) (widget : wref) (g : Widget) (w : World) :
  facades w !! this = Some f -> map f = Some widget ->
  widget_store w !! widget = Some g ->
  getZoom this w = (w, Return (current_zoom g)).
Proof.
  intros Hf Hmap Hg. unfold getZoom.
  rewrite (run_bind_Return _ _ _ _ _ (run_this_map _ _ _ _ Hf Hmap)).
  run. rewrite Hg. reflexivity.
Qed.

Lemma run_registerMapClickEvent (this : fref) (callback : value) (f : Map) (w : World) :
  facades w !! this = Some f -> typeof callback = "function" ->
  registerMapClickEvent this callback w
  = (with_facades
       (<[this := with_mapClickCallbacks (mapClickCallbacks f ++ [callback]) f]>
          (facades w)) w,
     Return this).
Proof.
  intros Hf Hty. unfold registerMapClickEvent. rewrite Hty. simpl (String.eqb _ _).
  run. rewrite (alter_is_insert _ _ _ _ Hf). reflexivity.
Qed.

Lemma run_registerMapZoomEvent (this : fref) (callback : value) (f : Map) (w : World) :
  facades w !! this = Some f -> typeof callback = "function" ->
  registerMapZoomEvent this callback w
  = (with_facades
       (<[this := with_mapZoomCallbacks (mapZoomCallbacks f ++ [callback]) f]>
          (facades w)) w,
     Return this).
Proof.
  intros Hf Hty. unfold registerMapZoomEvent. rewrite Hty. simpl (String.eqb _ _).
  run. rewrite (alter_is_insert _ _ _ _ Hf). reflexivity.
Qed.

Lemma run_registerMapClickEvent_other (this : fref) (callback : value) (w : World) :
  typeof callback <> "function" ->
  registerMapClickEvent this callback w = (w, Return this).
Proof.
  intros Hty. unfold registerMapClickEvent.
  destruct (String.eqb_spec (typeof callback) "function") as [E|_]; [contradiction|].
  reflexivity.
Qed.

Lemma run_registerMapZoomEvent_other (this : fref) (callback : value) (w : World) :
  typeof callback <> "function" ->
  registerMapZoomEvent this callback w = (w, Return this).
Proof.
  intros Hty. unfold registerMapZoomEvent.
  destruct (String.eqb_spec (typeof callback) "function") as [E|_]; [contradiction|].
  reflexivity.
Qed.

(* ===================================================================== *)
(** ** [onMapInteract] *)
(* ===================================================================== *)

Lemma onMapInteract_loop (this : fref) (name : arrayName) (args : value)
    (f : Map) (gs : list fn) :
  array_property f name = VFunction <$> gs ->
  forall (n i : nat) (w : World),
    facades w !! this = Some f ->
    i + n <= length gs ->
    for_loop n i (fun i =>
      f ← deref this;
      call (default VUndefined (array_property f name !! i)) args) w
    = (with_calls (calls w ++ called_with args (take n (drop i gs))) w, Return tt).
Proof.
  intros Hgs.
  induction n as [|n IH]; intros i w Hf Hlen.
  - cbn. rewrite app_nil_r, with_calls_id. reflexivity.
  - destruct (lookup_lt_is_Some_2 gs i ltac:(lia)) as [g Hg].
    cbn [for_loop]. rewrite run_bind.
    rewrite (run_bind_Return _ _ _ _ _ (run_deref _ _ _ Hf)).
    rewrite Hgs, list_lookup_fmap, Hg. cbn.
    rewrite IH by first [exact Hf | lia].
    rewrite (drop_S _ _ _ Hg). cbn.
    rewrite <- app_assoc. reflexivity.
Qed.

Lemma run_onMapInteract (this : fref) (name : arrayName) (args : value)
    (f : Map) (gs : list fn) (w : World) :
  facades w !! this = Some f ->
  array_property f name = VFunction <$> gs ->
  onMapInteract this name args w
  = (with_calls (calls w ++ called_with args gs) w, Return this).
Proof.
  intros Hf Hgs. unfold onMapInteract.
  rewrite (run_bind_Return _ _ _ _ _ (run_deref _ _ _ Hf)).
  rewrite run_bind. unfold for_.
  rewrite (onMapInteract_loop this name args f gs Hgs)
    by first [exact Hf | rewrite Hgs, length_fmap; lia].
  rewrite Hgs, length_fmap, Nat.sub_0_r, drop_0, firstn_all. reflexivity.
Qed.

(* ===================================================================== *)
(** ** Marker events *)
(* ===================================================================== *)

Lemma no_listener_on_fresh_marker (w : World) (r : mref) (eventName : string) :
  listeners_allocated w -> length (marker_store w) <= r ->
  List.filter (listens (OnMarker r) eventName) (listeners w) = [].
Proof.
  unfold listeners_allocated. intros Hall Hr.
  induction Hall as [|reg regs Hreg _ IH]; [reflexivity|].
  cbn. rewrite IH. unfold listens.
  destruct (target reg) as [r'|r']; cbn; [|reflexivity].
  destruct (Nat.eqb_spec r' r) as [->|_]; [lia|reflexivity].
Qed.

Lemma filter_click_registrations (callback : value) (r : mref) :
  forall (n base : nat),
    List.filter (listens (OnMarker r) "click")
      (click_registration callback <$> seq base n)
    = if decide (base <= r < base + n) then [click_registration callback r] else [].
Proof.
  induction n as [|n IH]; intros base.
  - cbn. destruct (decide _) as [H|_]; [lia|reflexivity].
  - cbn [seq fmap list_fmap List.filter]. rewrite IH.
    unfold listens at 1. cbn [target event_name click_registration].
    simpl (String.eqb _ _). rewrite andb_true_r. cbn [Target_eqb].
    destruct (Nat.eqb_spec base r) as [->|Hne].
    + destruct (decide (S r <= r < S r + n)) as [H|_]; [lia|].
      destruct (decide (r <= r < r + S n)) as [_|H]; [reflexivity|lia].
    + destruct (decide (S base <= r < S base + n)) as [H|H];
        destruct (decide (base <= r < base + S n)) as [H'|H'];
        first [reflexivity | lia].
Qed.

Lemma run_trigger_marker (w : World) (r : mref) (eventName : string) (g : fn)
    (reg : Registration) (m : Marker) (event : value) :
  List.filter (listens (OnMarker r) eventName) (listeners w) = [reg] ->
  handler reg = MarkerListener (VFunction g) ->
  marker_store w !! r = Some m ->
  trigger (OnMarker r) eventName event w
  = (with_calls (calls w ++ [(g, data m)]) w, Return tt).
Proof.
  intros Hregs Hh Hm. unfold trigger. rewrite run_bind. cbn [get_world].
  rewrite Hregs. cbn [run_listeners]. rewrite Hh. cbn [run_listener].
  simpl (String.eqb _ _). unfold this_data. run. rewrite Hm. reflexivity.
Qed.

(** A listener whose callback is not a function does nothing (line 167). *)
Lemma run_trigger_marker_not_callable (w : World) (r : mref) (eventName : string)
    (callback : value) (reg : Registration) (event : value) :
  List.filter (listens (OnMarker r) eventName) (listeners w) = [reg] ->
  handler reg = MarkerListener callback ->
  typeof callback <> "function" ->
  trigger (OnMarker r) eventName event w = (w, Return tt).
Proof.
  intros Hregs Hh Hty. unfold trigger. rewrite run_bind. cbn [get_world].
  rewrite Hregs. cbn [run_listeners]. rewrite Hh. cbn [run_listener].
  destruct (String.eqb_spec (typeof callback) "function") as [E|_]; [contradiction|].
  reflexivity.
Qed.

Lemma added_marker_store this f entries callback w (i : nat) (entry : value) :
  entries !! i = Some entry ->
  marker_store (added this f entries callback w) !! (length (marker_store w) + i)
  = Some (marker_for f entry).
Proof.
  intros He. unfold added. cbn.
  rewrite lookup_app_r by lia.
  replace (length (marker_store w) + i - length (marker_store w)) with i by lia.
  rewrite list_lookup_fmap, He. reflexivity.
Qed.

Lemma added_listeners this f entries callback w (i : nat) :
  listeners_allocated w -> i < length entries ->
  List.filter (listens (OnMarker (length (marker_store w) + i)) "click")
    (listeners (added this f entries callback w))
  = [click_registration callback (length (marker_store w) + i)].
Proof.
  intros Hall Hi. unfold added. cbn.
  rewrite List.filter_app, (no_listener_on_fresh_marker w) by first [exact Hall | lia].
  rewrite filter_click_registrations.
  destruct (decide _) as [_|H]; [reflexivity|lia].
Qed.

(* ===================================================================== *)
(** ** Chains of calls *)
(* ===================================================================== *)

Lemma chain_app (this : fref) (cs1 cs2 : list Call) (w : World) :
  chain this (cs1 ++ cs2) w =
  match chain this cs1 w with
  | (w1, Return this1) => chain this1 cs2 w1
  | (w1, Throw e) => (w1, Throw e)
  end.
Proof.
  revert this w. induction cs1 as [|c cs1 IH]; intros this w; [reflexivity|].
  cbn [app chain]. rewrite !run_bind.
  destruct (invoke this c w) as [w1 [this1|e]]; [apply IH|reflexivity].
Qed.

Lemma extended_nil (f : Map) : extended f [] [] [] = f.
Proof. destruct f. unfold extended. cbn. rewrite !app_nil_r. reflexivity. Qed.

Lemma extended_extended (f : Map) ms1 cl1 zm1 ms2 cl2 zm2 :
  extended (extended f ms1 cl1 zm1) ms2 cl2 zm2
  = extended f (ms1 ++ ms2) (cl1 ++ cl2) (zm1 ++ zm2).
Proof. unfold extended. cbn. rewrite <- !app_assoc. reflexivity. Qed.

Lemma marker_for_extended (f : Map) ms cl zm :
  marker_for (extended f ms cl zm) = marker_for f.
Proof. reflexivity. Qed.

Lemma run_additions (this : fref) :
  forall (cs : list Call) (w : World) (f : Map),
    facades w !! this = Some f ->
    forallb only_adds cs = true ->
    Forall (fun entry => valid_entry entry = true) (added_entries cs) ->
    exists w',
      chain this cs w = (w', Return this)
      /\ facades w' !! this
         = Some (extended f
                   (seq (length (marker_store w)) (length (added_entries cs)))
                   (added_clicks cs) (added_zooms cs))
      /\ marker_store w' = marker_store w ++ (marker_for f <$> added_entries cs)
      /\ widget_store w' = widget_store w
      /\ calls w' = calls w.
Proof.
  induction cs as [|c cs IH]; intros w f Hf Hadds Hvalid.
  - exists w. cbn. rewrite extended_nil, app_nil_r. auto.
  - cbn in Hadds. apply andb_true_iff in Hadds as [Hc Hcs].
    destruct c; try discriminate Hc; cbn [chain invoke added_entries added_clicks
      added_zooms] in *.
    + (* addMarkers *)
      apply Forall_app in Hvalid as [Hhere Hrest].
      rewrite (run_bind_Return _ _ _ _ _ (run_addMarkers _ _ _ _ _ Hf Hhere)).
      set (base := length (marker_store w)).
      set (fresh := seq base (length coordsArray)).
      destruct (IH (added this f coordsArray callback w) (extended f fresh [] []))
        as (w' & Hrun & Hf' & Hms & Hws & Hcalls); try assumption.
      { unfold added. cbn. rewrite list_lookup_insert_eq by (eapply lookup_lt_Some, Hf).
        unfold extended, with_markers. cbn. rewrite !app_nil_r. reflexivity. }
      exists w'. split; [exact Hrun|].
      rewrite Hf', Hms, Hws, Hcalls, extended_extended, marker_for_extended.
      unfold added. cbn. rewrite !length_app, length_fmap, seq_app, fmap_app.
      rewrite <- app_assoc. auto.
    + (* registerMapZoomEvent *)
      destruct (String.eqb_spec (typeof callback) "function") as [Hty|Hty].
      * rewrite (run_bind_Return _ _ _ _ _
                   (run_registerMapZoomEvent _ _ _ _ Hf Hty)).
        destruct (IH (with_facades
                        (<[this := with_mapZoomCallbacks
                                     (mapZoomCallbacks f ++ [callback]) f]>
                           (facades w)) w)
                     (extended f [] [] [callback]))
          as (w' & Hrun & Hf' & Hms & Hws & Hcalls); try assumption.
        { cbn. rewrite list_lookup_insert_eq by (eapply lookup_lt_Some, Hf).
          unfold extended, with_mapZoomCallbacks. cbn. rewrite !app_nil_r.
          reflexivity. }
        exists w'. split; [exact Hrun|].
        rewrite Hf', Hms, Hws, Hcalls, extended_extended. cbn. auto.
      * rewrite (run_bind_Return _ _ _ _ _
                   (run_registerMapZoomEvent_other _ _ _ Hty)).
        apply IH; assumption.
    + (* registerMapClickEvent *)
      destruct (String.eqb_spec (typeof callback) "function") as [Hty|Hty].
      * rewrite (run_bind_Return _ _ _ _ _
                   (run_registerMapClickEvent _ _ _ _ Hf Hty)).
        destruct (IH (with_facades
                        (<[this := with_mapClickCallbacks
                                     (mapClickCallbacks f ++ [callback]) f]>
                           (facades w)) w)
                     (extended f [] [callback] []))
          as (w' & Hrun & Hf' & Hms & Hws & Hcalls); try assumption.
        { cbn. rewrite list_lookup_insert_eq by (eapply lookup_lt_Some, Hf).
          unfold extended, with_mapClickCallbacks. cbn. rewrite !app_nil_r.
          reflexivity. }
        exists w'. split; [exact Hrun|].
        rewrite Hf', Hms, Hws, Hcalls, extended_extended. cbn. auto.
      * rewrite (run_bind_Return _ _ _ _ _
                   (run_registerMapClickEvent_other _ _ _ Hty)).
        apply IH; assumption.
Qed.

(* ===================================================================== *)
(** ** Properties of the store kept by a computation, whatever its outcome *)
(* ===================================================================== *)

Section Preservation.
Context (I : World -> Prop).

Lemma preserves_ret {A} (a : A) : preserves I (ret a).
Proof. intros w H. exact H. Qed.

Lemma preserves_throw {A} (e : error) : preserves I (@throw A e).
Proof. intros w H. exact H. Qed.

Lemma preserves_lift {A} (c : completion A) : preserves I (lift c).
Proof. intros w H. exact H. Qed.

Lemma preserves_get_world : preserves I get_world.
Proof. intros w H. exact H. Qed.

Lemma preserves_modify (g : World -> World) :
  (forall w, I w -> I (g w)) -> preserves I (modify g).
Proof. intros Hg w H. apply Hg, H. Qed.

Lemma preserves_bind {A B} (c : M A) (k : A -> M B) :
  preserves I c -> (forall a, preserves I (k a)) -> preserves I (c ≫= k).
Proof.
  intros Hc Hk w H. rewrite run_bind.
  specialize (Hc w H). destruct (c w) as [w' [a|e]]; cbn in Hc.
  - apply Hk, Hc.
  - exact Hc.
Qed.

Lemma preserves_for_loop (body : nat -> M unit) :
  (forall i, preserves I (body i)) ->
  forall n i, preserves I (for_loop n i body).
Proof.
  intros Hbody. induction n as [|n IH]; intros i.
  - apply preserves_ret.
  - cbn [for_loop]. apply preserves_bind; [apply Hbody | intros _; apply IH].
Qed.

Lemma preserves_deref (this : fref) : preserves I (deref this).
Proof.
  unfold deref. apply preserves_bind; [apply preserves_get_world|].
  intros w. destruct (facades w !! this); [apply preserves_ret | apply preserves_throw].
Qed.

Lemma preserves_call (callee arg : value) :
  (forall w x, I w -> I (with_calls x w)) -> preserves I (call callee arg).
Proof.
  intros Hcalls. destruct callee; try apply preserves_throw.
  apply preserves_modify. intros w H. apply Hcalls, H.
Qed.
End Preservation.

Lemma facade_maps_alter (g : Map -> Map) (this : fref) (w : World) :
  (forall f, map (g f) = map f) ->
  facade_maps (with_facades (alter g this (facades w)) w) = facade_maps w.
Proof.
  intros Hg. unfold facade_maps. cbn.
  rewrite (list_fmap_alter map g id).
  - apply list_alter_id. reflexivity.
  - apply Forall_forall. intros f _. apply Hg.
Qed.

Ltac preserve :=
  repeat match goal with
    | |- preserves _ (deref _) => apply preserves_deref
    | |- preserves _ (_ ≫= _) => apply preserves_bind; [| intros ?]
    | |- preserves _ (ret _) => apply preserves_ret
    | |- preserves _ (throw _) => apply preserves_throw
    | |- preserves _ (lift _) => apply preserves_lift
    | |- preserves _ get_world => apply preserves_get_world
    | |- preserves _ (for_loop _ _ _) => apply preserves_for_loop; intros ?
    | |- preserves _ (call _ _) => apply preserves_call; intros ? ? ?
    | |- preserves _ (modify _) => apply preserves_modify; intros ? ?
    | |- preserves _ (match ?x with _ => _ end) => destruct x
    end.

Lemma keeps_maps_update (this : fref) (g : Map -> Map) :
  (forall f, map (g f) = map f) -> keeps_maps (update this g).
Proof.
  intros Hg ms. unfold update. apply preserves_modify. intros w H.
  rewrite facade_maps_alter; assumption.
Qed.

Lemma keeps_maps_this_map (this : fref) : keeps_maps (this_map this).
Proof. intros ms. unfold this_map. preserve. Qed.

Lemma keeps_maps_setAllMap (this : fref) (_map : option wref) :
  keeps_maps (setAllMap this _map).
Proof.
  intros ms. unfold setAllMap, for_, google.maps.Marker_setMap. preserve. assumption.
Qed.

Lemma keeps_maps_invoke (this : fref) (c : Call) :
  c <> call_init -> keeps_maps (invoke this c).
Proof.
  intros Hc ms. destruct c; try contradiction; cbn [invoke].
  - unfold setCenter, google.maps.Map_setCenter. preserve;
      first [apply keeps_maps_this_map | assumption].
  - unfold setZoom, google.maps.Map_setZoom. preserve;
      first [apply keeps_maps_this_map | assumption].
  - unfold addMarkers, for_, assignMarkerEvent, google.maps.event.addListener.
    preserve; try assumption.
    + intros w H. exact H.
    + apply keeps_maps_update. reflexivity.
  - unfold assignMarkerEvent, google.maps.event.addListener. preserve. assumption.
  - apply keeps_maps_setAllMap.
  - unfold clearMarkers. preserve. apply keeps_maps_setAllMap.
  - unfold showMarkers. preserve. apply keeps_maps_setAllMap.
  - unfold deleteMarkers, clearMarkers. preserve.
    + apply keeps_maps_setAllMap.
    + apply keeps_maps_update. reflexivity.
  - unfold registerMapZoomEvent. preserve. apply keeps_maps_update. reflexivity.
  - unfold registerMapClickEvent. preserve. apply keeps_maps_update. reflexivity.
  - unfold onMapInteract, for_. preserve. assumption.
Qed.

Lemma keeps_maps_chain (cs : list Call) :
  call_init ∉ cs -> forall this, keeps_maps (chain this cs).
Proof.
  induction cs as [|c cs IH]; intros Hcs this ms; cbn [chain].
  - apply preserves_ret.
  - apply preserves_bind.
    + apply keeps_maps_invoke. intros ->. apply Hcs. left.
    + intros this'. apply IH. intros H. apply Hcs. right. exact H.
Qed.

(* ===================================================================== *)
(** ** The constructor and [init] *)
(* ===================================================================== *)

Lemma run_new_Map (elem options options_icon : value) (w : World) :
  get_prop options "icon" = Return options_icon ->
  new_Map elem options w
  = (with_facades (facades w ++ [constructed elem options_icon]) w,
     Return (length (facades w))).
Proof. intros H. unfold new_Map. rewrite (run_bind_lift _ _ _ _ H). reflexivity. Qed.

(** [new Map(elem)] and [new Map(elem, null)] throw at [options.icon]. *)
Lemma run_new_Map_without_options (elem options : value) (w : World) :
  options = VUndefined \/ options = VNull ->
  new_Map elem options w = (w, Throw TypeError).
Proof. intros [-> | ->]; reflexivity. Qed.

Lemma new_facade_lookup (elem options_icon : value) (w : World) :
  facades (with_facades (facades w ++ [constructed elem options_icon]) w)
    !! length (facades w)
  = Some (constructed elem options_icon).
Proof. cbn. rewrite lookup_app_r, Nat.sub_diag by lia. reflexivity. Qed.

Lemma run_init (this : fref) (f : Map) (w : World) :
  facades w !! this = Some f ->
  init this w
  = ({| facades := <[this := with_map (Some (length (widget_store w))) f]> (facades w);
        marker_store := marker_store w;
        widget_store := widget_store w ++ [widget_of f];
        listeners :=
          listeners w ++
            [ {| target := OnWidget (length (widget_store w)); event_name := "click";
                 handler := MapClickListener this |};
              {| target := OnWidget (length (widget_store w));
                 event_name := "zoom_changed";
                 handler := MapZoomListener this |} ];
        calls := calls w |},
     Return this).
Proof.
  intros Hf. unfold init. cbv zeta.
  rewrite (run_bind_Return _ _ _ _ _ (run_deref _ _ _ Hf)).
  run. rewrite (alter_is_insert _ _ _ _ Hf), <- app_assoc. reflexivity.
Qed.

(* ===================================================================== *)
(** ** Well-formed stores *)
(* ===================================================================== *)

Lemma facade_ok_mono nm nw nm' nw' f :
  nm <= nm' -> nw <= nw' -> facade_ok nm nw f -> facade_ok nm' nw' f.
Proof.
  intros Hm Hw [H1 H2 H3 H4]. split; try assumption.
  - eapply Forall_impl; [exact H1|]. cbn. intros; lia.
  - intros widget Hmap. specialize (H2 _ Hmap). lia.
Qed.

Lemma registration_ok_mono nm nw nf nm' nw' nf' reg :
  nm <= nm' -> nw <= nw' -> nf <= nf' ->
  registration_ok nm nw nf reg -> registration_ok nm' nw' nf' reg.
Proof.
  unfold registration_ok. intros Hm Hw Hf [H1 H2].
  split; [destruct (target reg) | destruct (handler reg)]; auto; lia.
Qed.

Lemma well_formed_empty : well_formed empty_world.
Proof. split; constructor. Qed.

Lemma well_formed_listeners (w : World) : well_formed w -> listeners_allocated w.
Proof.
  intros [_ H]. unfold listeners_allocated.
  eapply Forall_impl; [exact H|]. intros reg [Ht _]. exact Ht.
Qed.

Lemma callable_functions (l : list value) :
  Forall callable l -> exists gs, l = VFunction <$> gs.
Proof.
  induction 1 as [|v l Hv _ [gs ->]]; [exists []; reflexivity|].
  apply typeof_function in Hv as [g ->]. exists (g :: gs). reflexivity.
Qed.

Lemma well_formed_facade (w : World) (this : fref) (f : Map) :
  well_formed w -> facades w !! this = Some f ->
  facade_ok (length (marker_store w)) (length (widget_store w)) f.
Proof.
  intros [H _] Hf. eapply Forall_lookup_1; eassumption.
Qed.

(** The ways a well-formed store is changed. *)
Lemma well_formed_calls w x : well_formed w -> well_formed (with_calls x w).
Proof. intros H. exact H. Qed.

Lemma well_formed_new_marker w m :
  well_formed w -> well_formed (with_marker_store (marker_store w ++ [m]) w).
Proof.
  intros [Hf Hl]. split; cbn; rewrite length_app; cbn.
  - eapply Forall_impl; [exact Hf|]. intros f. apply facade_ok_mono; lia.
  - eapply Forall_impl; [exact Hl|]. intros reg. apply registration_ok_mono; lia.
Qed.

Lemma well_formed_alter_marker w g r :
  well_formed w -> well_formed (with_marker_store (alter g r (marker_store w)) w).
Proof. intros H. unfold well_formed. cbn. rewrite length_alter. exact H. Qed.

Lemma well_formed_new_widget w g :
  well_formed w -> well_formed (with_widget_store (widget_store w ++ [g]) w).
Proof.
  intros [Hf Hl]. split; cbn; rewrite length_app; cbn.
  - eapply Forall_impl; [exact Hf|]. intros f. apply facade_ok_mono; lia.
  - eapply Forall_impl; [exact Hl|]. intros reg. apply registration_ok_mono; lia.
Qed.

Lemma well_formed_alter_widget w g r :
  well_formed w -> well_formed (with_widget_store (alter g r (widget_store w)) w).
Proof. intros H. unfold well_formed. cbn. rewrite length_alter. exact H. Qed.

Lemma well_formed_new_listener w reg :
  well_formed w ->
  registration_ok (length (marker_store w)) (length (widget_store w))
    (length (facades w)) reg ->
  well_formed (with_listeners (listeners w ++ [reg]) w).
Proof.
  intros [Hf Hl] Hreg. split; cbn; [exact Hf|].
  apply Forall_app. split; [exact Hl|]. constructor; [exact Hreg|constructor].
Qed.

Lemma well_formed_alter_facade w g this :
  well_formed w ->
  (forall f, facades w !! this = Some f ->
             facade_ok (length (marker_store w)) (length (widget_store w)) f ->
             facade_ok (length (marker_store w)) (length (widget_store w)) (g f)) ->
  well_formed (with_facades (alter g this (facades w)) w).
Proof.
  intros [Hf Hl] Hg. split; cbn; [|rewrite length_alter; exact Hl].
  apply Forall_lookup_2. intros i f Hi.
  destruct (decide (i = this)) as [->|Hne].
  - rewrite list_lookup_alter_eq in Hi.
    destruct (facades w !! this) as [f0|] eqn:Hf0; [|discriminate].
    injection Hi as <-. apply Hg; [reflexivity|].
    eapply Forall_lookup_1; eassumption.
  - rewrite list_lookup_alter_ne in Hi by congruence.
    eapply Forall_lookup_1; eassumption.
Qed.

Lemma well_formed_new_facade w f :
  well_formed w ->
  facade_ok (length (marker_store w)) (length (widget_store w)) f ->
  well_formed (with_facades (facades w ++ [f]) w).
Proof.
  intros [Hf Hl] Hok. split; cbn.
  - apply Forall_app. split; [exact Hf|]. constructor; [exact Hok|constructor].
  - rewrite length_app. cbn.
    eapply Forall_impl; [exact Hl|]. intros reg. apply registration_ok_mono; lia.
Qed.

(** Peeling one change off the store. *)
Ltac well_formed_step :=
  match goal with
  | |- well_formed (with_calls ?x ?W) => apply (well_formed_calls W x)
  | |- well_formed (with_marker_store (_ ++ [?m]) ?W) => apply (well_formed_new_marker W m)
  | |- well_formed (with_marker_store (alter ?g ?r _) ?W) =>
      apply (well_formed_alter_marker W g r)
  | |- well_formed (with_widget_store (_ ++ [?g]) ?W) => apply (well_formed_new_widget W g)
  | |- well_formed (with_widget_store (alter ?g ?r _) ?W) =>
      apply (well_formed_alter_widget W g r)
  | |- well_formed (with_listeners (_ ++ [?reg]) ?W) =>
      apply (well_formed_new_listener W reg)
  | |- well_formed (with_facades (alter ?g ?t _) ?W) =>
      apply (well_formed_alter_facade W g t)
  | |- well_formed (with_facades (_ ++ [?f]) ?W) => apply (well_formed_new_facade W f)
  end.

Lemma facade_ok_no_markers nm nw f : facade_ok nm nw f -> facade_ok nm nw (with_markers [] f).
Proof. intros [H1 H2 H3 H4]. split; cbn; auto. Qed.

Lemma facade_ok_new_marker nm nw f r :
  r < nm -> facade_ok nm nw f -> facade_ok nm nw (with_markers (markers f ++ [r]) f).
Proof.
  intros Hr [H1 H2 H3 H4]. split; cbn; auto.
  apply Forall_app. split; [exact H1|]. constructor; [exact Hr|constructor].
Qed.

Lemma facade_ok_new_click nm nw f callback :
  callable callback -> facade_ok nm nw f ->
  facade_ok nm nw (with_mapClickCallbacks (mapClickCallbacks f ++ [callback]) f).
Proof.
  intros Hc [H1 H2 H3 H4]. split; cbn; auto.
  apply Forall_app. split; [exact H3|]. constructor; [exact Hc|constructor].
Qed.

Lemma facade_ok_new_zoom nm nw f callback :
  callable callback -> facade_ok nm nw f ->
  facade_ok nm nw (with_mapZoomCallbacks (mapZoomCallbacks f ++ [callback]) f).
Proof.
  intros Hc [H1 H2 H3 H4]. split; cbn; auto.
  apply Forall_app. split; [exact H4|]. constructor; [exact Hc|constructor].
Qed.

Lemma facade_ok_widget nm nw f widget :
  widget < nw -> facade_ok nm nw f -> facade_ok nm nw (with_map (Some widget) f).
Proof.
  intros Hw [H1 H2 H3 H4]. split; cbn; auto.
  intros widget' [= <-]. exact Hw.
Qed.

Lemma facade_ok_constructed nm nw elem options_icon :
  facade_ok nm nw (constructed elem options_icon).
Proof. split; cbn; try constructor. discriminate. Qed.

Lemma preserves_update_well_formed (this : fref) (g : Map -> Map) :
  (forall nm nw f, facade_ok nm nw f -> facade_ok nm nw (g f)) ->
  preserves well_formed (update this g).
Proof.
  intros Hg. unfold update. apply preserves_modify. intros w Hw.
  apply well_formed_alter_facade; [exact Hw|]. intros f _. apply Hg.
Qed.

Lemma preserves_this_map_well_formed (this : fref) : preserves well_formed (this_map this).
Proof. unfold this_map. preserve. Qed.

Lemma preserves_setAllMap_well_formed (this : fref) (_map : option wref) :
  preserves well_formed (setAllMap this _map).
Proof.
  unfold setAllMap, for_, google.maps.Marker_setMap. preserve.
  apply well_formed_alter_marker. assumption.
Qed.

Lemma preserves_onMapInteract_well_formed (this : fref) (name : arrayName) (args : value) :
  preserves well_formed (onMapInteract this name args).
Proof. unfold onMapInteract, for_. preserve. assumption. Qed.

Lemma preserves_getZoom_well_formed (this : fref) : preserves well_formed (getZoom this).
Proof.
  unfold getZoom, google.maps.Map_getZoom. preserve.
  apply preserves_this_map_well_formed.
Qed.

Lemma preserves_addMarkers_well_formed (this : fref) (coordsArray : list value)
    (callback : value) :
  preserves well_formed (addMarkers this coordsArray callback).
Proof.
  unfold addMarkers, for_. cbv zeta.
  apply preserves_bind; [|intros _; apply preserves_ret].
  apply preserves_for_loop. intros i w Hw.
  rewrite run_bind. unfold lift at 1.
  destruct (coordinate _ 0) as [a|e]; [|exact Hw].
  rewrite run_bind. unfold lift at 1.
  destruct (coordinate _ 1) as [b|e]; [|exact Hw].
  destruct (facades w !! this) as [f|] eqn:Hf.
  - rewrite (run_bind_Return _ _ _ _ _ (run_deref _ _ _ Hf)). run.
    well_formed_step.
    + well_formed_step; [well_formed_step; exact Hw|].
      split; cbn; [rewrite length_app; cbn; lia | exact Logic.I].
    + cbn. intros f' _. apply facade_ok_new_marker. rewrite length_app. cbn. lia.
  - rewrite (run_bind_Throw _ _ _ _ _ (run_deref_dangling _ _ Hf)). exact Hw.
Qed.

Lemma preserves_init_well_formed (this : fref) : preserves well_formed (init this).
Proof.
  intros w Hw. destruct (facades w !! this) as [f|] eqn:Hf.
  - rewrite (run_init _ _ _ Hf). cbn [fst].
    assert (this < length (facades w)) as Hthis by (eapply lookup_lt_Some, Hf).
    pose proof (well_formed_new_widget w (widget_of f) Hw) as H1.
    pose proof (well_formed_alter_facade _ (with_map (Some (length (widget_store w)))) this H1)
      as H2.
    destruct H2 as [Hfs Hls].
    { cbn. intros f' _. apply facade_ok_widget. rewrite length_app. cbn. lia. }
    cbn in Hfs, Hls. rewrite (alter_is_insert _ _ _ _ Hf) in Hfs, Hls.
    split; cbn; [exact Hfs|].
    apply Forall_app. split; [exact Hls|].
    rewrite length_insert, length_app. cbn.
    repeat constructor; cbn; lia.
  - unfold init. cbv zeta.
    rewrite (run_bind_Throw _ _ _ _ _ (run_deref_dangling _ _ Hf)). exact Hw.
Qed.

Lemma preserves_new_Map_well_formed (elem options : value) :
  preserves well_formed (new_Map elem options).
Proof.
  intros w Hw. destruct (get_prop options "icon") as [v|e] eqn:Hicon.
  - rewrite (run_new_Map _ _ _ _ Hicon). cbn [fst].
    apply well_formed_new_facade; [exact Hw | apply facade_ok_constructed].
  - unfold new_Map. rewrite (run_bind_lift_Throw _ _ _ _ Hicon). exact Hw.
Qed.

Lemma preserves_invoke_well_formed (this : fref) (c : Call) :
  (forall marker event callback, c <> call_assignMarkerEvent marker event callback) ->
  preserves well_formed (invoke this c).
Proof.
  intros Hc. destruct c; cbn [invoke].
  - unfold setCenter, google.maps.Map_setCenter. preserve;
      first [apply preserves_this_map_well_formed
            | apply well_formed_alter_widget; assumption].
  - unfold setZoom, google.maps.Map_setZoom. preserve;
      first [apply preserves_this_map_well_formed
            | apply well_formed_alter_widget; assumption].
  - apply preserves_addMarkers_well_formed.
  - exfalso. eapply Hc. reflexivity.
  - apply preserves_setAllMap_well_formed.
  - unfold clearMarkers. preserve. apply preserves_setAllMap_well_formed.
  - unfold showMarkers. preserve. apply preserves_setAllMap_well_formed.
  - unfold deleteMarkers, clearMarkers. preserve.
    + apply preserves_setAllMap_well_formed.
    + apply preserves_update_well_formed. intros. apply facade_ok_no_markers. assumption.
  - unfold registerMapZoomEvent.
    destruct (String.eqb_spec (typeof callback) "function") as [Hty|Hty]; preserve.
    apply preserves_update_well_formed. intros. apply facade_ok_new_zoom; assumption.
  - unfold registerMapClickEvent.
    destruct (String.eqb_spec (typeof callback) "function") as [Hty|Hty]; preserve.
    apply preserves_update_well_formed. intros. apply facade_ok_new_click; assumption.
  - apply preserves_onMapInteract_well_formed.
  - apply preserves_init_well_formed.
Qed.

Lemma well_formed_invoke (this : fref) (c : Call) (w : World) :
  well_formed w -> names_existing c w -> well_formed (fst (invoke this c w)).
Proof.
  intros Hw Hc.
  destruct c; try (apply preserves_invoke_well_formed; [discriminate | exact Hw]).
  cbn [invoke names_existing] in *. unfold assignMarkerEvent. run.
  well_formed_step; [exact Hw|]. split; cbn; [exact Hc | exact Logic.I].
Qed.

Lemma preserves_trigger_well_formed (instance : Target) (eventName : string)
    (event : value) :
  preserves well_formed (trigger instance eventName event).
Proof.
  unfold trigger. apply preserves_bind; [apply preserves_get_world|]. intros w0.
  induction (List.filter (listens instance eventName) (listeners w0)) as [|reg regs IH];
    cbn [run_listeners]; [apply preserves_ret|].
  apply preserves_bind; [|intros _; exact IH].
  unfold run_listener, this_data. preserve;
    first [ assumption
          | apply preserves_onMapInteract_well_formed
          | apply preserves_getZoom_well_formed ].
Qed.

(** X19.  Every store the page can reach through constructions, method
    calls and events is well formed: every handle in a facade's marker
    list is a marker that exists, a facade's [map] is a widget that
    exists, the two callback lists hold functions only, and every listener
    is attached to an object that exists. *)
Theorem reachable_well_formed (w : World) :
  rtc (step names_existing) empty_world w -> well_formed w.
Proof.
  intros Hreach.
  apply (rtc_ind_r (R := step names_existing) (fun w => well_formed w) empty_world);
    [apply well_formed_empty | | exact Hreach].
  intros w1 w2 _ Hstep IH. destruct Hstep.
  - apply preserves_new_Map_well_formed, IH.
  - apply well_formed_invoke; assumption.
  - apply preserves_getZoom_well_formed, IH.
  - apply preserves_trigger_well_formed, IH.
Qed.


(* ===================================================================== *)
(** ** A marker keeps its entry and its listener *)
(* ===================================================================== *)

Section Settled.
Context (r : mref) (d : value) (regs : list Registration).

Lemma settled_calls w x : marker_settled r d regs w -> marker_settled r d regs (with_calls x w).
Proof. intros H. exact H. Qed.

Lemma settled_facades w x :
  marker_settled r d regs w -> marker_settled r d regs (with_facades x w).
Proof. intros H. exact H. Qed.

Lemma settled_widget_store w x :
  marker_settled r d regs w -> marker_settled r d regs (with_widget_store x w).
Proof. intros H. exact H. Qed.

Lemma settled_new_marker w m :
  marker_settled r d regs w ->
  marker_settled r d regs (with_marker_store (marker_store w ++ [m]) w).
Proof.
  intros [Hd Hl]. split; [|exact Hl]. cbn.
  destruct (marker_store w !! r) as [m0|] eqn:Hm; [|discriminate].
  rewrite (lookup_app_l_Some _ _ _ _ Hm). exact Hd.
Qed.

Lemma settled_setMap w marker _map :
  marker_settled r d regs w ->
  marker_settled r d regs
    (with_marker_store (alter (with_marker_map _map) marker (marker_store w)) w).
Proof.
  intros [Hd Hl]. split; [|exact Hl]. cbn.
  destruct (decide (marker = r)) as [->|Hne].
  - rewrite list_lookup_alter_eq. destruct (marker_store w !! r); [exact Hd|discriminate].
  - rewrite list_lookup_alter_ne by exact Hne. exact Hd.
Qed.

Lemma settled_new_listener w reg :
  marker_settled r d regs w ->
  listens (OnMarker r) "click" reg = false ->
  marker_settled r d regs (with_listeners (listeners w ++ [reg]) w).
Proof.
  intros [Hd Hl] Hreg. split; [exact Hd|]. cbn.
  rewrite List.filter_app, Hl. cbn. rewrite Hreg. apply app_nil_r.
Qed.

Lemma settled_allocated w : marker_settled r d regs w -> r < length (marker_store w).
Proof.
  intros [Hd _]. destruct (marker_store w !! r) as [m|] eqn:Hm; [|discriminate].
  eapply lookup_lt_Some, Hm.
Qed.

Lemma listens_other_marker (marker : mref) (eventName : string) (h : Listener) :
  marker <> r ->
  listens (OnMarker r) "click"
    {| target := OnMarker marker; event_name := eventName; handler := h |} = false.
Proof.
  intros Hne. unfold listens. cbn.
  destruct (Nat.eqb_spec marker r); [contradiction|reflexivity].
Qed.

Lemma preserves_this_map_settled (this : fref) :
  preserves (marker_settled r d regs) (this_map this).
Proof. unfold this_map. preserve. Qed.

Lemma preserves_setAllMap_settled (this : fref) (_map : option wref) :
  preserves (marker_settled r d regs) (setAllMap this _map).
Proof.
  unfold setAllMap, for_, google.maps.Marker_setMap. preserve.
  apply settled_setMap. assumption.
Qed.

Lemma preserves_onMapInteract_settled (this : fref) (name : arrayName) (args : value) :
  preserves (marker_settled r d regs) (onMapInteract this name args).
Proof. unfold onMapInteract, for_. preserve. assumption. Qed.

Lemma preserves_getZoom_settled (this : fref) :
  preserves (marker_settled r d regs) (getZoom this).
Proof.
  unfold getZoom, google.maps.Map_getZoom. preserve. apply preserves_this_map_settled.
Qed.

Lemma preserves_addMarkers_settled (this : fref) (coordsArray : list value)
    (callback : value) :
  preserves (marker_settled r d regs) (addMarkers this coordsArray callback).
Proof.
  unfold addMarkers, for_. cbv zeta.
  apply preserves_bind; [|intros _; apply preserves_ret].
  apply preserves_for_loop. intros i w Hw.
  rewrite run_bind. unfold lift at 1.
  destruct (coordinate _ 0) as [a|e]; [|exact Hw].
  rewrite run_bind. unfold lift at 1.
  destruct (coordinate _ 1) as [b|e]; [|exact Hw].
  destruct (facades w !! this) as [f|] eqn:Hf.
  - rewrite (run_bind_Return _ _ _ _ _ (run_deref _ _ _ Hf)). run.
    apply settled_facades.
    match goal with
    | |- marker_settled _ _ _ (with_listeners (_ ++ [?reg]) ?W) =>
        apply (settled_new_listener W reg)
    end.
    + apply settled_new_marker, Hw.
    + apply listens_other_marker. apply settled_allocated in Hw. lia.
  - rewrite (run_bind_Throw _ _ _ _ _ (run_deref_dangling _ _ Hf)). exact Hw.
Qed.

Lemma preserves_init_settled (this : fref) : preserves (marker_settled r d regs) (init this).
Proof.
  intros w [Hd Hl]. destruct (facades w !! this) as [f|] eqn:Hf.
  - rewrite (run_init _ _ _ Hf). cbn [fst]. split; cbn; [exact Hd|].
    rewrite List.filter_app, Hl. cbn. apply app_nil_r.
  - unfold init. cbv zeta.
    rewrite (run_bind_Throw _ _ _ _ _ (run_deref_dangling _ _ Hf)). split; assumption.
Qed.

Lemma preserves_new_Map_settled (elem options : value) :
  preserves (marker_settled r d regs) (new_Map elem options).
Proof.
  intros w Hw. destruct (get_prop options "icon") as [v|e] eqn:Hicon.
  - rewrite (run_new_Map _ _ _ _ Hicon). exact Hw.
  - unfold new_Map. rewrite (run_bind_lift_Throw _ _ _ _ Hicon). exact Hw.
Qed.

Lemma settled_invoke (this : fref) (c : Call) (w : World) :
  marker_settled r d regs w -> spares r c w ->
  marker_settled r d regs (fst (invoke this c w)).
Proof.
  intros Hw Hc. revert w Hw Hc.
  destruct c; cbn [invoke spares]; intros w Hw Hc; revert w Hw;
    change (forall w, ?P w -> ?P (fst (?c w))) with (preserves P c).
  - unfold setCenter, google.maps.Map_setCenter. preserve;
      first [apply preserves_this_map_settled | apply settled_widget_store; assumption].
  - unfold setZoom, google.maps.Map_setZoom. preserve;
      first [apply preserves_this_map_settled | apply settled_widget_store; assumption].
  - apply preserves_addMarkers_settled.
  - unfold assignMarkerEvent, google.maps.event.addListener. preserve.
    apply settled_new_listener; [assumption|]. apply listens_other_marker, Hc.
  - apply preserves_setAllMap_settled.
  - unfold clearMarkers. preserve. apply preserves_setAllMap_settled.
  - unfold showMarkers. preserve. apply preserves_setAllMap_settled.
  - unfold deleteMarkers, clearMarkers, update. preserve;
      first [apply preserves_setAllMap_settled | apply settled_facades; assumption].
  - unfold registerMapZoomEvent, update. preserve. apply settled_facades. assumption.
  - unfold registerMapClickEvent, update. preserve. apply settled_facades. assumption.
  - apply preserves_onMapInteract_settled.
  - apply preserves_init_settled.
Qed.

Lemma preserves_trigger_settled (instance : Target) (eventName : string) (event : value) :
  preserves (marker_settled r d regs) (trigger instance eventName event).
Proof.
  unfold trigger. apply preserves_bind; [apply preserves_get_world|]. intros w0.
  induction (List.filter (listens instance eventName) (listeners w0)) as [|reg rest IH];
    cbn [run_listeners]; [apply preserves_ret|].
  apply preserves_bind; [|intros _; exact IH].
  unfold run_listener, this_data. preserve;
    first [ assumption
          | apply preserves_onMapInteract_settled
          | apply preserves_getZoom_settled ].
Qed.

Lemma settled_steps (w w' : World) :
  rtc (step (spares r)) w w' ->
  marker_settled r d regs w -> marker_settled r d regs w'.
Proof.
  induction 1 as [|w1 w2 w3 Hstep _ IH]; [auto|].
  intros Hw. apply IH. destruct Hstep.
  - apply preserves_new_Map_settled, Hw.
  - apply settled_invoke; assumption.
  - apply preserves_getZoom_settled, Hw.
  - apply preserves_trigger_settled, Hw.
Qed.

End Settled.

Lemma run_trigger_settled (w : World) (r : mref) (d : value) (g : fn)
    (reg : Registration) (event : value) :
  marker_settled r d [reg] w ->
  handler reg = MarkerListener (VFunction g) ->
  trigger (OnMarker r) "click" event w = (with_calls (calls w ++ [(g, d)]) w, Return tt).
Proof.
  intros [Hd Hl] Hh.
  destruct (marker_store w !! r) as [m|] eqn:Hm; [|discriminate].
  injection Hd as <-. eapply run_trigger_marker; eassumption.
Qed.

(** In a well-formed store [deleteMarkers] and [clearMarkers] reach every
    stored marker, and [onMapInteract] finds functions only. *)
Lemma well_formed_hides_all (this : fref) (f : Map) (w : World) (r : mref) :
  well_formed w -> facades w !! this = Some f -> r ∈ markers f ->
  (marker_map <$> marker_store (fst (clearMarkers this w)) !! r) = Some None
  /\ (marker_map <$> marker_store (fst (deleteMarkers this w)) !! r) = Some None.
Proof.
  intros Hw Hf Hr.
  destruct (well_formed_facade _ _ _ Hw Hf) as [Hms _ _ _].
  assert (r < length (marker_store w)) as Hlt.
  { eapply Forall_forall in Hms; [exact Hms|]. exact Hr. }
  destruct (lookup_lt_is_Some_2 _ _ Hlt) as [m Hm].
  rewrite (run_clearMarkers _ _ _ Hf), (run_deleteMarkers _ _ _ Hf). cbn.
  rewrite (setMap_each_stored _ _ _ _ Hr), Hm. split; reflexivity.
Qed.

Lemma well_formed_onMapInteract (this : fref) (name : arrayName) (args : value)
    (f : Map) (w : World) :
  well_formed w -> facades w !! this = Some f ->
  exists gs,
    array_property f name = VFunction <$> gs
    /\ onMapInteract this name args w
       = (with_calls (calls w ++ called_with args gs) w, Return this).
Proof.
  intros Hw Hf.
  destruct (well_formed_facade _ _ _ Hw Hf) as [_ _ Hc Hz].
  assert (Forall callable (array_property f name)) as Hl by (destruct name; assumption).
  destruct (callable_functions _ Hl) as [gs Hgs].
  exists gs. split; [exact Hgs|]. apply (run_onMapInteract _ _ _ f); assumption.
Qed.

(* ===================================================================== *)
(** ** Worked examples *)
(* ===================================================================== *)

Example new_world_facade : facades new_world !! 0 = Some new_facade.
Proof. reflexivity. Qed.

Example live_world_facade : facades live_world !! 0 = Some live_facade.
Proof. reflexivity. Qed.

Example pinned_world_facade : facades pinned_world !! 0 = Some pinned_facade.
Proof. reflexivity. Qed.

(** The usage shown at the head of the source file. *)
Example usage_chain :
  exists w,
    chain 0 [call_deleteMarkers;
             call_setCenter (VArray [VNumber (Finite (38910943 # 1000000));
                                     VNumber (Finite (59353517 # 1000000))]);
             call_setZoom (VInt 7);
             call_addMarkers [entry_a] (VFunction "onMarkerClicked");
             call_setAllMap None;
             call_showMarkers] live_world
    = (w, Return 0)
    /\ (markers <$> facades w !! 0) = Some [0]
    /\ (marker_map <$> marker_store w !! 0) = Some (Some 0)
    /\ (current_zoom <$> widget_store w !! 0) = Some (VInt 7).
Proof. eexists. vm_compute. repeat split. Qed.

(** Section 8 of the specification: two markers at [1,2] and [3,4] with
    payloads {a:1} and {b:2}, then [deleteMarkers()]. *)
Example scenario_delete :
  exists w,
    chain 0 [call_addMarkers [entry_a; entry_b] (VFunction "onPin");
             call_deleteMarkers] live_world
    = (w, Return 0)
    /\ (length <$> (markers <$> facades w !! 0)) = Some 0.
Proof. eexists. vm_compute. split; reflexivity. Qed.

(** A click on the second marker. *)
Example click_second_marker :
  calls (fst (trigger (OnMarker 1) "click" VUndefined pinned_world))
  = [("onPin", entry_b)].
Proof. reflexivity. Qed.

(* ===================================================================== *)
(** ** Markers: adding, hiding, deleting *)
(* ===================================================================== *)

(** C1.  [addMarkers] with an array of N entries whose coordinates can be
    read returns the facade and appends exactly N handles to
    [this.markers], after the handles already stored and in entry order;
    the handles are the N markers it has just created, so nothing is
    merged with markers of earlier calls.  The i-th new handle is a marker
    whose [data] is the i-th entry, so that the entry's payload is the
    [data] property of the marker's [data]. *)
Theorem addMarkers_appends_handles (this : fref) (coordsArray : list value)
    (callback : value) (f : Map) (w : World) :
  facades w !! this = Some f ->
  Forall (fun entry => valid_entry entry = true) coordsArray ->
  exists (w' : World) (f' : Map),
    addMarkers this coordsArray callback w = (w', Return this)
    /\ facades w' !! this = Some f'
    /\ markers f'
       = markers f ++ seq (length (marker_store w)) (length coordsArray)
    /\ length (markers f') = length (markers f) + length coordsArray
    /\ forall (i : nat) (entry : value),
         coordsArray !! i = Some entry ->
         exists (handle : mref) (m : Marker),
           markers f' !! (length (markers f) + i) = Some handle
           /\ marker_store w !! handle = None
           /\ marker_store w' !! handle = Some m
           /\ data m = entry
           /\ get_prop (data m) "data" = get_prop entry "data".
Proof.
  intros Hf Hvalid.
  exists (added this f coordsArray callback w),
         (with_markers (markers f ++ seq (length (marker_store w)) (length coordsArray)) f).
  split; [apply run_addMarkers; assumption|].
  split.
  { unfold added. cbn. apply list_lookup_insert_eq. eapply lookup_lt_Some, Hf. }
  split; [reflexivity|].
  split; [cbn; rewrite length_app, length_seq; reflexivity|].
  intros i entry He.
  exists (length (marker_store w) + i), (marker_for f entry).
  split.
  { cbn. rewrite lookup_app_r by lia.
    replace (length (markers f) + i - length (markers f)) with i by lia.
    apply lookup_seq. split; [reflexivity|]. eapply lookup_lt_Some, He. }
  split; [apply lookup_ge_None; lia|].
  split; [apply added_marker_store, He | split; reflexivity].
Qed.

Lemma addMarkers_appends_handles_witness :
  exists (w' : World) (f' : Map),
    addMarkers 0 [entry_a; entry_b] (VFunction "onPin") pinned_world = (w', Return 0)
    /\ facades w' !! 0 = Some f'
    /\ markers f' = markers pinned_facade ++ seq (length (marker_store pinned_world)) 2
    /\ length (markers f') = length (markers pinned_facade) + 2
    /\ forall (i : nat) (entry : value),
         [entry_a; entry_b] !! i = Some entry ->
         exists (handle : mref) (m : Marker),
           markers f' !! (length (markers pinned_facade) + i) = Some handle
           /\ marker_store pinned_world !! handle = None
           /\ marker_store w' !! handle = Some m
           /\ data m = entry
           /\ get_prop (data m) "data" = get_prop entry "data".
Proof.
  apply (addMarkers_appends_handles 0 [entry_a; entry_b] (VFunction "onPin")
           pinned_facade pinned_world).
  - reflexivity.
  - repeat constructor.
Defined.

(** The same array added twice is stored twice. *)
Example addMarkers_accumulates :
  (markers <$> facades (fst (addMarkers 0 [entry_a; entry_b] (VFunction "onPin")
                               pinned_world)) !! 0)
  = Some [0; 1; 2; 3].
Proof. reflexivity. Qed.

(** C3.  Whatever the facade holds, [deleteMarkers] returns the facade and
    leaves the store that [clearMarkers] leaves, with [this.markers]
    emptied: the list is empty, every marker that was stored has its map
    set to null (its [map] reads null afterwards) and is otherwise as it
    was, and no other marker is touched. *)
Theorem deleteMarkers_hides_then_empties (this : fref) (f : Map) (w : World) :
  facades w !! this = Some f ->
  exists (w' : World),
    deleteMarkers this w = (w', Return this)
    /\ w' = with_facades (<[this := with_markers [] f]> (facades w))
              (fst (clearMarkers this w))
    /\ facades w' !! this = Some (with_markers [] f)
    /\ (forall f', facades w' !! this = Some f' -> markers f' = [])
    /\ (forall (r : mref) (m : Marker),
          r ∈ markers f -> marker_store w !! r = Some m ->
          marker_store w' !! r = Some (with_marker_map None m))
    /\ (forall (r : mref), r ∉ markers f -> marker_store w' !! r = marker_store w !! r)
    /\ (forall (r : mref) (m : Marker),
          r ∈ markers f -> marker_store w !! r = Some m ->
          exists m',
            marker_store w' !! r = Some m'
            /\ marker_map m' = None
            /\ position m' = position m
            /\ marker_icon m' = marker_icon m
            /\ data m' = data m)
    /\ (forall (r : mref) (m : Marker),
          r ∈ markers f -> marker_store (fst (clearMarkers this w)) !! r = Some m ->
          marker_map m = None).
Proof.
  intros Hf. eexists. split; [apply run_deleteMarkers, Hf|].
  rewrite (run_clearMarkers _ _ _ Hf). cbn [fst].
  assert (facades
            (with_facades (<[this := with_markers [] f]> (facades w))
               (with_marker_store (setMap_each None (markers f) (marker_store w)) w))
            !! this = Some (with_markers [] f)) as Hf'.
  { cbn. apply list_lookup_insert_eq. eapply lookup_lt_Some, Hf. }
  split; [reflexivity|]. split; [exact Hf'|]. split; [|split; [|split; [|split]]].
  - intros f' Hf''. rewrite Hf' in Hf''. injection Hf'' as <-. reflexivity.
  - intros r m Hr Hm. cbn. rewrite (setMap_each_stored _ _ _ _ Hr), Hm. reflexivity.
  - intros r Hr. cbn. apply setMap_each_other, Hr.
  - intros r m Hr Hm. cbn. apply setMap_each_stored_fields; assumption.
  - intros r m Hr Hm. cbn in Hm.
    rewrite (setMap_each_stored _ _ _ _ Hr) in Hm.
    destruct (marker_store w !! r) as [m0|]; [|discriminate].
    injection Hm as <-. reflexivity.
Qed.

Lemma deleteMarkers_hides_then_empties_witness :
  exists (w' : World),
    deleteMarkers 0 pinned_world = (w', Return 0)
    /\ w' = with_facades (<[0 := with_markers [] pinned_facade]> (facades pinned_world))
              (fst (clearMarkers 0 pinned_world))
    /\ facades w' !! 0 = Some (with_markers [] pinned_facade)
    /\ (forall f', facades w' !! 0 = Some f' -> markers f' = [])
    /\ (forall (r : mref) (m : Marker),
          r ∈ markers pinned_facade -> marker_store pinned_world !! r = Some m ->
          marker_store w' !! r = Some (with_marker_map None m))
    /\ (forall (r : mref), r ∉ markers pinned_facade ->
          marker_store w' !! r = marker_store pinned_world !! r)
    /\ (forall (r : mref) (m : Marker),
          r ∈ markers pinned_facade -> marker_store pinned_world !! r = Some m ->
          exists m',
            marker_store w' !! r = Some m'
            /\ marker_map m' = None
            /\ position m' = position m
            /\ marker_icon m' = marker_icon m
            /\ data m' = data m)
    /\ (forall (r : mref) (m : Marker),
          r ∈ markers pinned_facade ->
          marker_store (fst (clearMarkers 0 pinned_world)) !! r = Some m ->
          marker_map m = None).
Proof.
  apply (deleteMarkers_hides_then_empties 0 pinned_facade pinned_world).
  reflexivity.
Defined.

(** In [pinned_world] both markers are on the widget; after
    [deleteMarkers] they are on no map and the list is empty. *)
Example deleteMarkers_read_back :
  (marker_map <$> marker_store pinned_world) = [Some 0; Some 0]
  /\ (marker_map <$> marker_store (fst (deleteMarkers 0 pinned_world))) = [None; None]
  /\ (markers <$> facades (fst (deleteMarkers 0 pinned_world)) !! 0) = Some [].
Proof. repeat split. Qed.

(** C4.  Whatever the facade holds, [clearMarkers] returns the facade and
    leaves every facade, so [this.markers] and its length, as it was; the
    marker store keeps its size, every stored marker has its map set to
    null and is otherwise as it was, and no other marker is touched. *)
Theorem clearMarkers_keeps_handles (this : fref) (f : Map) (w : World) :
  facades w !! this = Some f ->
  exists (w' : World),
    clearMarkers this w = (w', Return this)
    /\ facades w' = facades w
    /\ (forall f', facades w' !! this = Some f' ->
          markers f' = markers f /\ length (markers f') = length (markers f))
    /\ length (marker_store w') = length (marker_store w)
    /\ (forall (r : mref) (m : Marker),
          r ∈ markers f -> marker_store w !! r = Some m ->
          marker_store w' !! r = Some (with_marker_map None m))
    /\ (forall (r : mref), r ∉ markers f -> marker_store w' !! r = marker_store w !! r).
Proof.
  intros Hf. eexists. split; [apply run_clearMarkers, Hf|].
  split; [reflexivity|]. split; [|split; [|split]].
  - intros f' Hf'. cbn in Hf'. rewrite Hf in Hf'. injection Hf' as <-. auto.
  - cbn. apply setMap_each_length.
  - intros r m Hr Hm. cbn. rewrite (setMap_each_stored _ _ _ _ Hr), Hm. reflexivity.
  - intros r Hr. cbn. apply setMap_each_other, Hr.
Qed.

Lemma clearMarkers_keeps_handles_witness :
  exists (w' : World),
    clearMarkers 0 pinned_world = (w', Return 0)
    /\ facades w' = facades pinned_world
    /\ (forall f', facades w' !! 0 = Some f' ->
          markers f' = markers pinned_facade
          /\ length (markers f') = length (markers pinned_facade))
    /\ length (marker_store w') = length (marker_store pinned_world)
    /\ (forall (r : mref) (m : Marker),
          r ∈ markers pinned_facade -> marker_store pinned_world !! r = Some m ->
          marker_store w' !! r = Some (with_marker_map None m))
    /\ (forall (r : mref), r ∉ markers pinned_facade ->
          marker_store w' !! r = marker_store pinned_world !! r).
Proof.
  apply (clearMarkers_keeps_handles 0 pinned_facade pinned_world).
  reflexivity.
Defined.

(* ===================================================================== *)
(** ** Marker clicks *)
(* ===================================================================== *)

(** C2, as the code has it.  After [addMarkers(coordsArray, onClick)] with
    a function [onClick], a click on the marker created for the i-th entry
    calls [onClick] once, with [this.data] of that marker, which is the
    i-th entry itself: the object holding both [latLng] and the caller's
    payload [data].  Nothing else is called and nothing else changes.  This
    holds when the click comes at once and when it comes after any further
    constructions, method calls and events, as long as no other listener is
    attached to that marker through [assignMarkerEvent]. *)
Theorem marker_click_passes_entry (this : fref) (coordsArray : list value)
    (onClick : fn) (f : Map) (w : World) (i : nat) (entry event : value) :
  facades w !! this = Some f ->
  listeners_allocated w ->
  Forall (fun entry => valid_entry entry = true) coordsArray ->
  coordsArray !! i = Some entry ->
  exists (w' : World) (f' : Map) (handle : mref),
    addMarkers this coordsArray (VFunction onClick) w = (w', Return this)
    /\ facades w' !! this = Some f'
    /\ markers f' !! (length (markers f) + i) = Some handle
    /\ forall (w'' : World),
         rtc (step (spares handle)) w' w'' ->
         trigger (OnMarker handle) "click" event w''
         = (with_calls (calls w'' ++ [(onClick, entry)]) w'', Return tt).
Proof.
  intros Hf Hall Hvalid He.
  assert (i < length coordsArray) as Hi by (eapply lookup_lt_Some, He).
  exists (added this f coordsArray (VFunction onClick) w),
         (with_markers (markers f ++ seq (length (marker_store w)) (length coordsArray)) f),
         (length (marker_store w) + i).
  split; [apply run_addMarkers; assumption|].
  split.
  { unfold added. cbn. apply list_lookup_insert_eq. eapply lookup_lt_Some, Hf. }
  split.
  { cbn. rewrite lookup_app_r by lia.
    replace (length (markers f) + i - length (markers f)) with i by lia.
    apply lookup_seq. split; [reflexivity|exact Hi]. }
  intros w'' Hsteps.
  apply (run_trigger_settled w'' _ entry onClick
           (click_registration (VFunction onClick) (length (marker_store w) + i)));
    [|reflexivity].
  eapply settled_steps; [exact Hsteps|]. split.
  - rewrite (added_marker_store _ _ _ _ _ _ _ He). reflexivity.
  - apply added_listeners; assumption.
Qed.

Lemma marker_click_passes_entry_witness :
  exists (w' : World) (f' : Map) (handle : mref),
    addMarkers 0 [entry_a; entry_b] (VFunction "onPin") live_world = (w', Return 0)
    /\ facades w' !! 0 = Some f'
    /\ markers f' !! (length (markers live_facade) + 1) = Some handle
    /\ forall (w'' : World),
         rtc (step (spares handle)) w' w'' ->
         trigger (OnMarker handle) "click" VUndefined w''
         = (with_calls (calls w'' ++ [("onPin", entry_b)]) w'', Return tt).
Proof.
  apply (marker_click_passes_entry 0 [entry_a; entry_b] "onPin" live_facade
           live_world 1 entry_b VUndefined).
  - reflexivity.
  - repeat constructor.
  - repeat constructor.
  - reflexivity.
Defined.

(** The click may come later: here after the markers were hidden, another
    batch was added and the zoom was changed. *)
Example click_after_other_calls :
  calls (fst ((chain 0 [call_clearMarkers;
                        call_addMarkers [entry_b] (VFunction "other");
                        call_setZoom (VInt 9)] ;;
               trigger (OnMarker 0) "click" VUndefined) pinned_world))
  = [("onPin", entry_a)].
Proof. reflexivity. Qed.

(** C2, as stated, fails: for the entry
    [{latLng: [1, 2], data: {a: 1}}] the click callback does not receive
    the payload [{a: 1}]; it receives the whole entry. *)
Lemma marker_click_payload_counterexample :
  ~ (forall (this : fref) (coordsArray : list value) (onClick : fn) (f : Map)
       (w : World) (i : nat) (entry payload event : value),
       facades w !! this = Some f ->
       listeners_allocated w ->
       Forall (fun entry => valid_entry entry = true) coordsArray ->
       coordsArray !! i = Some entry ->
       get_prop entry "data" = Return payload ->
       exists (w' : World) (f' : Map) (handle : mref),
         addMarkers this coordsArray (VFunction onClick) w = (w', Return this)
         /\ facades w' !! this = Some f'
         /\ markers f' !! (length (markers f) + i) = Some handle
         /\ trigger (OnMarker handle) "click" event w'
            = (with_calls (calls w' ++ [(onClick, payload)]) w', Return tt)).
Proof.
  intros claim.
  destruct (claim 0 [entry_a] "onPin" live_facade live_world 0 entry_a
              (VObject [("a", VInt 1)]) VUndefined)
    as (w' & f' & handle & Hrun & Hf' & Hhandle & Hclick).
  - reflexivity.
  - repeat constructor.
  - repeat constructor.
  - reflexivity.
  - reflexivity.
  - vm_compute in Hrun. injection Hrun as <-.
    vm_compute in Hf'. injection Hf' as <-.
    vm_compute in Hhandle. injection Hhandle as <-.
    vm_compute in Hclick. discriminate Hclick.
Qed.

(* ===================================================================== *)
(** ** Callbacks *)
(* ===================================================================== *)

Lemma added_entries_register_clicks gs : added_entries (register_clicks gs) = [].
Proof. induction gs; cbn; auto. Qed.
Lemma added_entries_register_zooms gs : added_entries (register_zooms gs) = [].
Proof. induction gs; cbn; auto. Qed.
Lemma added_clicks_register_clicks gs :
  added_clicks (register_clicks gs) = VFunction <$> gs.
Proof. induction gs as [|g gs IH]; [reflexivity|]. cbn. f_equal. exact IH. Qed.
Lemma added_zooms_register_zooms gs :
  added_zooms (register_zooms gs) = VFunction <$> gs.
Proof. induction gs as [|g gs IH]; [reflexivity|]. cbn. f_equal. exact IH. Qed.
Lemma added_zooms_register_clicks gs : added_zooms (register_clicks gs) = [].
Proof. induction gs; cbn; auto. Qed.
Lemma added_clicks_register_zooms gs : added_clicks (register_zooms gs) = [].
Proof. induction gs; cbn; auto. Qed.
Lemma only_adds_register_clicks gs : forallb only_adds (register_clicks gs) = true.
Proof. induction gs; cbn; auto. Qed.
Lemma only_adds_register_zooms gs : forallb only_adds (register_zooms gs) = true.
Proof. induction gs; cbn; auto. Qed.

(** C5.  On a facade whose click list holds the functions
    [earlier_clicks] (none, for a new facade), registering the K functions
    [gs] with [registerMapClickEvent] and then calling
    [onMapInteract('mapClickCallbacks', P)] returns the facade and adds to
    the trace of calls exactly one call per registered function, in
    registration order, each with the argument [P]; and the same for
    [registerMapZoomEvent] and ['mapZoomCallbacks']. *)
Theorem onMapInteract_calls_each_once (this : fref) (f : Map) (w : World)
    (earlier_clicks earlier_zooms gs : list fn) (P : value) :
  facades w !! this = Some f ->
  mapClickCallbacks f = VFunction <$> earlier_clicks ->
  mapZoomCallbacks f = VFunction <$> earlier_zooms ->
  (exists (w' : World),
     chain this (register_clicks gs ++ [call_onMapInteract name_mapClickCallbacks P]) w
     = (w', Return this)
     /\ calls w' = calls w ++ called_with P (earlier_clicks ++ gs))
  /\
  (exists (w' : World),
     chain this (register_zooms gs ++ [call_onMapInteract name_mapZoomCallbacks P]) w
     = (w', Return this)
     /\ calls w' = calls w ++ called_with P (earlier_zooms ++ gs)).
Proof.
  intros Hf Hclicks Hzooms. split.
  - destruct (run_additions this (register_clicks gs) w f Hf
                (only_adds_register_clicks gs))
      as (w1 & Hrun & Hf1 & _ & _ & Hcalls).
    { rewrite added_entries_register_clicks. constructor. }
    rewrite added_entries_register_clicks, added_clicks_register_clicks,
      added_zooms_register_clicks in Hf1.
    pose proof (run_onMapInteract this name_mapClickCallbacks P _
                  (earlier_clicks ++ gs) w1 Hf1) as Hinteract.
    eexists. rewrite chain_app, Hrun. cbn [chain invoke].
    rewrite (run_bind_Return _ _ _ _ _ (Hinteract
               ltac:(cbn; rewrite Hclicks, fmap_app; reflexivity))).
    split; [reflexivity|]. cbn. rewrite Hcalls. reflexivity.
  - destruct (run_additions this (register_zooms gs) w f Hf
                (only_adds_register_zooms gs))
      as (w1 & Hrun & Hf1 & _ & _ & Hcalls).
    { rewrite added_entries_register_zooms. constructor. }
    rewrite added_entries_register_zooms, added_clicks_register_zooms,
      added_zooms_register_zooms in Hf1.
    pose proof (run_onMapInteract this name_mapZoomCallbacks P _
                  (earlier_zooms ++ gs) w1 Hf1) as Hinteract.
    eexists. rewrite chain_app, Hrun. cbn [chain invoke].
    rewrite (run_bind_Return _ _ _ _ _ (Hinteract
               ltac:(cbn; rewrite Hzooms, fmap_app; reflexivity))).
    split; [reflexivity|]. cbn. rewrite Hcalls. reflexivity.
Qed.

Lemma onMapInteract_calls_each_once_witness :
  (exists (w' : World),
     chain 0 (register_clicks ["first"; "second"; "third"]
                ++ [call_onMapInteract name_mapClickCallbacks (VString "event")])
       live_world
     = (w', Return 0)
     /\ calls w' = calls live_world
                   ++ called_with (VString "event") ([] ++ ["first"; "second"; "third"]))
  /\
  (exists (w' : World),
     chain 0 (register_zooms ["first"; "second"; "third"]
                ++ [call_onMapInteract name_mapZoomCallbacks (VString "event")])
       live_world
     = (w', Return 0)
     /\ calls w' = calls live_world
                   ++ called_with (VString "event") ([] ++ ["first"; "second"; "third"])).
Proof.
  apply (onMapInteract_calls_each_once 0 live_facade live_world [] []
           ["first"; "second"; "third"] (VString "event")); reflexivity.
Defined.

(** The widget's own events reach the registered callbacks through the
    listeners [init] installs. *)
Example widget_click_reaches_callbacks :
  calls (fst ((chain 0 (register_clicks ["first"; "second"]) ;;
               trigger (OnWidget 0) "click" (VString "event")) live_world))
  = [("first", VString "event"); ("second", VString "event")].
Proof. reflexivity. Qed.

Example widget_zoom_reaches_callbacks :
  calls (fst ((chain 0 (register_zooms ["first"; "second"] ++ [call_setZoom (VInt 9)]) ;;
               trigger (OnWidget 0) "zoom_changed" VUndefined) live_world))
  = [("first", VInt 9); ("second", VInt 9)].
Proof. reflexivity. Qed.

(** C6.  [setZoom] with an argument that is not a number changes nothing
    in the store (no facade, marker, widget, listener or call) and returns
    the facade.  With a number, on a facade that has its widget, it returns
    the facade and the widget's zoom is that number, which [getZoom] then
    reads back; nothing else changes. *)
Theorem setZoom_only_numbers (this : fref) (zoom : value) (w : World) :
  (typeof zoom <> "number" -> setZoom this zoom w = (w, Return this))
  /\
  (forall (f : Map) (widget : wref) (g : Widget),
     typeof zoom = "number" ->
     facades w !! this = Some f -> map f = Some widget ->
     widget_store w !! widget = Some g ->
     exists (w' : World),
       setZoom this zoom w = (w', Return this)
       /\ w' = with_widget_store
                 (<[widget := with_current_zoom zoom g]> (widget_store w)) w
       /\ widget_store w' !! widget = Some (with_current_zoom zoom g)
       /\ getZoom this w' = (w', Return zoom)).
Proof.
  split.
  - apply run_setZoom_other.
  - intros f widget g Hty Hf Hmap Hg.
    apply typeof_number in Hty as [n ->].
    eexists. split; [apply (run_setZoom_number _ _ _ _ _ _ Hf Hmap Hg)|].
    assert (<[widget := with_current_zoom (VNumber n) g]> (widget_store w) !! widget
            = Some (with_current_zoom (VNumber n) g)) as Hg'.
    { apply list_lookup_insert_eq. eapply lookup_lt_Some, Hg. }
    split; [reflexivity|]. split; [exact Hg'|].
    apply (run_getZoom this f widget (with_current_zoom (VNumber n) g)); assumption.
Qed.

Lemma setZoom_only_numbers_witness :
  setZoom 0 (VString "7") live_world = (live_world, Return 0)
  /\
  exists (w' : World),
    setZoom 0 (VInt 7) live_world = (w', Return 0)
    /\ w' = with_widget_store
              (<[0 := with_current_zoom (VInt 7) (widget_of new_facade)]>
                 (widget_store live_world)) live_world
    /\ widget_store w' !! 0 = Some (with_current_zoom (VInt 7) (widget_of new_facade))
    /\ getZoom 0 w' = (w', Return (VInt 7)).
Proof.
  split.
  - apply (proj1 (setZoom_only_numbers 0 (VString "7") live_world)). discriminate.
  - apply (proj2 (setZoom_only_numbers 0 (VInt 7) live_world)
             live_facade 0 (widget_of new_facade)); reflexivity.
Defined.

(** C7.  [registerMapClickEvent] and [registerMapZoomEvent] return the
    facade for every argument.  A function is appended to the end of the
    click list, respectively the zoom list: read back from the store, that
    list is the old one followed by the function, the other list and every
    other field of the facade are as they were, and so is the rest of the
    store.  Any other argument leaves the whole store as it was and raises
    nothing. *)
Theorem register_only_functions (this : fref) (callback : value) (f : Map) (w : World) :
  facades w !! this = Some f ->
  (typeof callback = "function" ->
     (exists (w' : World) (f' : Map),
        registerMapClickEvent this callback w = (w', Return this)
        /\ w' = with_facades
                  (<[this := with_mapClickCallbacks (mapClickCallbacks f ++ [callback]) f]>
                     (facades w)) w
        /\ facades w' !! this = Some f'
        /\ mapClickCallbacks f' = mapClickCallbacks f ++ [callback]
        /\ mapZoomCallbacks f' = mapZoomCallbacks f
        /\ markers f' = markers f
        /\ map f' = map f
        /\ elem f' = elem f
        /\ icon f' = icon f
        /\ mapOptions f' = mapOptions f
        /\ only_facade_differs this w w')
     /\
     (exists (w' : World) (f' : Map),
        registerMapZoomEvent this callback w = (w', Return this)
        /\ w' = with_facades
                  (<[this := with_mapZoomCallbacks (mapZoomCallbacks f ++ [callback]) f]>
                     (facades w)) w
        /\ facades w' !! this = Some f'
        /\ mapZoomCallbacks f' = mapZoomCallbacks f ++ [callback]
        /\ mapClickCallbacks f' = mapClickCallbacks f
        /\ markers f' = markers f
        /\ map f' = map f
        /\ elem f' = elem f
        /\ icon f' = icon f
        /\ mapOptions f' = mapOptions f
        /\ only_facade_differs this w w'))
  /\
  (typeof callback <> "function" ->
     registerMapClickEvent this callback w = (w, Return this)
     /\ registerMapZoomEvent this callback w = (w, Return this)).
Proof.
  intros Hf.
  assert (this < length (facades w)) as Hthis by (eapply lookup_lt_Some, Hf).
  split; intros Hty.
  - split.
    + eexists _, _. split; [apply run_registerMapClickEvent; eassumption|].
      split; [reflexivity|].
      split; [cbn; apply list_lookup_insert_eq, Hthis|].
      do 7 (split; [reflexivity|]).
      split; [cbn; apply length_insert|].
      split; [|repeat split].
      intros other Hne. cbn. apply list_lookup_insert_ne. congruence.
    + eexists _, _. split; [apply run_registerMapZoomEvent; eassumption|].
      split; [reflexivity|].
      split; [cbn; apply list_lookup_insert_eq, Hthis|].
      do 7 (split; [reflexivity|]).
      split; [cbn; apply length_insert|].
      split; [|repeat split].
      intros other Hne. cbn. apply list_lookup_insert_ne. congruence.
  - split; [apply run_registerMapClickEvent_other | apply run_registerMapZoomEvent_other];
      assumption.
Qed.

Lemma register_only_functions_witness :
  ((exists (w' : World) (f' : Map),
      registerMapClickEvent 0 (VFunction "onClick") live_world = (w', Return 0)
      /\ w' = with_facades
                (<[0 := with_mapClickCallbacks
                          (mapClickCallbacks live_facade ++ [VFunction "onClick"])
                          live_facade]>
                   (facades live_world)) live_world
      /\ facades w' !! 0 = Some f'
      /\ mapClickCallbacks f' = mapClickCallbacks live_facade ++ [VFunction "onClick"]
      /\ mapZoomCallbacks f' = mapZoomCallbacks live_facade
      /\ markers f' = markers live_facade
      /\ map f' = map live_facade
      /\ elem f' = elem live_facade
      /\ icon f' = icon live_facade
      /\ mapOptions f' = mapOptions live_facade
      /\ only_facade_differs 0 live_world w')
   /\
   (exists (w' : World) (f' : Map),
      registerMapZoomEvent 0 (VFunction "onClick") live_world = (w', Return 0)
      /\ w' = with_facades
                (<[0 := with_mapZoomCallbacks
                          (mapZoomCallbacks live_facade ++ [VFunction "onClick"])
                          live_facade]>
                   (facades live_world)) live_world
      /\ facades w' !! 0 = Some f'
      /\ mapZoomCallbacks f' = mapZoomCallbacks live_facade ++ [VFunction "onClick"]
      /\ mapClickCallbacks f' = mapClickCallbacks live_facade
      /\ markers f' = markers live_facade
      /\ map f' = map live_facade
      /\ elem f' = elem live_facade
      /\ icon f' = icon live_facade
      /\ mapOptions f' = mapOptions live_facade
      /\ only_facade_differs 0 live_world w'))
  /\
  (registerMapClickEvent 0 (VString "onClick") live_world = (live_world, Return 0)
   /\ registerMapZoomEvent 0 (VString "onClick") live_world = (live_world, Return 0)).
Proof.
  split.
  - apply (proj1 (register_only_functions 0 (VFunction "onClick") live_facade
                    live_world eq_refl)).
    reflexivity.
  - apply (proj2 (register_only_functions 0 (VString "onClick") live_facade
                    live_world eq_refl)).
    discriminate.
Defined.

(** The two lists of [live_world]'s facade before and after registering
    a function on each. *)
Example register_read_back :
  (mapClickCallbacks <$> facades live_world !! 0) = Some []
  /\ (mapClickCallbacks <$>
        facades (fst (registerMapClickEvent 0 (VFunction "onClick") live_world)) !! 0)
     = Some [VFunction "onClick"]
  /\ (mapZoomCallbacks <$>
        facades (fst (registerMapClickEvent 0 (VFunction "onClick") live_world)) !! 0)
     = Some []
  /\ (mapZoomCallbacks <$>
        facades (fst (registerMapZoomEvent 0 (VFunction "onZoom") live_world)) !! 0)
     = Some [VFunction "onZoom"]
  /\ (mapClickCallbacks <$>
        facades (fst (registerMapZoomEvent 0 (VFunction "onZoom") live_world)) !! 0)
     = Some [].
Proof. repeat split. Qed.

(* ===================================================================== *)
(** ** Construction *)
(* ===================================================================== *)

(** C8, as stated, fails: constructed with [{zoom: 10}], the facade's
    widget options still hold zoom 4. *)
Lemma supplied_zoom_counterexample :
  ~ (forall (elem options supplied : value) (w w' : World) (this : fref) (f : Map),
       get_prop options "zoom" = Return supplied ->
       supplied <> VUndefined ->
       new_Map elem options w = (w', Return this) ->
       facades w' !! this = Some f ->
       zoom (mapOptions f) = supplied).
Proof.
  intros claim.
  specialize (claim (VString "#map") (VObject [("zoom", VInt 10)]) (VInt 10)
                empty_world
                (fst (new_Map (VString "#map") (VObject [("zoom", VInt 10)]) empty_world))
                0 (constructed (VString "#map") VUndefined)
                eq_refl ltac:(discriminate) eq_refl eq_refl).
  vm_compute in claim. discriminate claim.
Qed.

(** C8, as the code has it.  The constructor reads one option, [icon]: the
    facade's icon is [options.icon] when that is truthy and ['map-pin.png']
    otherwise.  The facade it builds depends on [options] in no other way:
    its widget options are the constants of lines 91-102 (zoom 4, default UI
    disabled, scroll wheel off, zoom control on, centre
    (47.147354, 16.158813), large zoom control at the right top, no scale
    control), and they are the options [init] constructs the widget with. *)
Theorem constructor_reads_icon_only (elem options options_icon : value) (w : World) :
  get_prop options "icon" = Return options_icon ->
  exists (w' : World) (this : fref) (f : Map),
    new_Map elem options w = (w', Return this)
    /\ facades w' !! this = Some f
    /\ f = constructed elem options_icon
    /\ icon f = (if truthy options_icon then options_icon else VString "map-pin.png")
    /\ mapOptions f
       = {| zoom := VInt 4;
            disableDefaultUI := true;
            scrollwheel := false;
            zoomControl := true;
            center := {| lat := VNumber (Finite (47147354 # 1000000));
                         lng := VNumber (Finite (16158813 # 1000000)) |};
            zoomControlOptions := {| style := LARGE; control_position := RIGHT_TOP |};
            scaleControl := false |}
    /\ exists (w'' : World) (widget : wref) (g : Widget),
         init this w' = (w'', Return this)
         /\ (map <$> facades w'' !! this) = Some (Some widget)
         /\ widget_store w'' !! widget = Some g
         /\ widget_options g = mapOptions f.
Proof.
  intros Hicon.
  exists (with_facades (facades w ++ [constructed elem options_icon]) w),
         (length (facades w)), (constructed elem options_icon).
  split; [apply run_new_Map, Hicon|].
  pose proof (new_facade_lookup elem options_icon w) as Hf.
  split; [exact Hf|]. do 3 (split; [reflexivity|]).
  eexists _, (length (widget_store w)), (widget_of (constructed elem options_icon)).
  split; [apply run_init, Hf|]. cbn. split; [|split].
  - rewrite list_lookup_insert_eq; [reflexivity|].
    rewrite length_app. cbn. lia.
  - rewrite lookup_app_r, Nat.sub_diag by lia. reflexivity.
  - reflexivity.
Qed.

Lemma constructor_reads_icon_only_witness :
  exists (w' : World) (this : fref) (f : Map),
    new_Map (VString "#map")
      (VObject [("icon", VString "pin.png"); ("zoom", VInt 10)]) empty_world
    = (w', Return this)
    /\ facades w' !! this = Some f
    /\ f = constructed (VString "#map") (VString "pin.png")
    /\ icon f = (if truthy (VString "pin.png") then VString "pin.png"
                 else VString "map-pin.png")
    /\ mapOptions f
       = {| zoom := VInt 4;
            disableDefaultUI := true;
            scrollwheel := false;
            zoomControl := true;
            center := {| lat := VNumber (Finite (47147354 # 1000000));
                         lng := VNumber (Finite (16158813 # 1000000)) |};
            zoomControlOptions := {| style := LARGE; control_position := RIGHT_TOP |};
            scaleControl := false |}
    /\ exists (w'' : World) (widget : wref) (g : Widget),
         init this w' = (w'', Return this)
         /\ (map <$> facades w'' !! this) = Some (Some widget)
         /\ widget_store w'' !! widget = Some g
         /\ widget_options g = mapOptions f.
Proof.
  apply (constructor_reads_icon_only (VString "#map")
           (VObject [("icon", VString "pin.png"); ("zoom", VInt 10)])
           (VString "pin.png") empty_world).
  reflexivity.
Defined.

(** Two option objects with the same [icon] build the same facade. *)
Corollary constructor_ignores_other_keys (elem options1 options2 options_icon : value)
    (w : World) :
  get_prop options1 "icon" = Return options_icon ->
  get_prop options2 "icon" = Return options_icon ->
  new_Map elem options1 w = new_Map elem options2 w.
Proof. intros H1 H2. rewrite (run_new_Map _ _ _ _ H1), (run_new_Map _ _ _ _ H2). reflexivity. Qed.

(** A falsy [icon] (absent, null, false, 0, NaN or the empty string) gives
    the default. *)
Example default_icon :
  icon (constructed (VString "#map") (VString "")) = VString "map-pin.png"
  /\ icon (constructed (VString "#map") VUndefined) = VString "map-pin.png"
  /\ icon (constructed (VString "#map") (VInt 0)) = VString "map-pin.png".
Proof. repeat split. Qed.

(* ===================================================================== *)
(** ** Loading the library *)
(* ===================================================================== *)

(** The guard of line 73 lets every truthy [google] through, whether or
    not it has the [maps] namespace. *)
Lemma require_callback_truthy (g : value) (promise : Deferred) :
  truthy g = true ->
  require_callback (Some g) promise = (resolved_with_Map, Return tt).
Proof. intros H. unfold require_callback, library_missing. rewrite H. reflexivity. Qed.

(** The error of line 74 is raised exactly when [google] is a falsy value
    other than undefined and null: its [maps] is then undefined. *)
Lemma require_callback_Error (google : option value) (promise : Deferred) :
  require_callback google promise
  = (promise, Throw (Error "Maps library could not be loaded!"))
  <-> exists g, google = Some g /\ truthy g = false /\ g <> VUndefined /\ g <> VNull.
Proof.
  unfold require_callback, library_missing. split.
  - destruct google as [g|]; [|discriminate].
    destruct (truthy g) eqn:Hg; cbn; [discriminate|].
    intros H. exists g. split; [reflexivity|]. split; [exact Hg|].
    split; intros ->; discriminate H.
  - intros (g & -> & Hg & Hu & Hn). rewrite Hg. cbn.
    destruct g; try contradiction; try discriminate Hg; reflexivity.
Qed.

(** C9.  With the global [google] an object that has no [maps] namespace,
    the callback raises nothing and publishes the constructor. *)
Theorem require_callback_publishes_without_maps :
  get_prop (VObject []) "maps" = Return VUndefined
  /\ require_callback (Some (VObject [])) pending = (resolved_with_Map, Return tt).
Proof. split; reflexivity. Qed.

(** Without the global at all, or with it undefined or null, what is
    raised is not the error of line 74. *)
Example require_callback_without_global :
  require_callback None pending = (pending, Throw ReferenceError)
  /\ require_callback (Some VUndefined) pending = (pending, Throw TypeError)
  /\ require_callback (Some VNull) pending = (pending, Throw TypeError).
Proof. repeat split. Qed.

(** With the library loaded, the constructor is published. *)
Example require_callback_loaded :
  require_callback (Some (VObject [("maps", VObject [])])) pending
  = (resolved_with_Map, Return tt).
Proof. reflexivity. Qed.

(* ===================================================================== *)
(** ** A new facade *)
(* ===================================================================== *)

Lemma data_marker_for (f : Map) (entries : list value) :
  data <$> (marker_for f <$> entries) = entries.
Proof.
  induction entries as [|e entries IH]; [reflexivity|].
  cbn. f_equal. exact IH.
Qed.

Lemma chain_without_init_keeps_map (this : fref) (cs : list Call) (w : World) :
  call_init ∉ cs ->
  (map <$> facades (fst (chain this cs w)) !! this) = (map <$> facades w !! this).
Proof.
  intros Hcs.
  pose proof (keeps_maps_chain cs Hcs this (facade_maps w) w eq_refl) as H.
  unfold facade_maps in H. rewrite <- !list_lookup_fmap, H. reflexivity.
Qed.

(** C10.  [new Map(elem, options)] returns a facade whose marker list,
    click list and zoom list are empty and whose [map] is null.  The [map]
    stays null through every chain of calls that does not contain [init],
    and holds a widget after [init].  After a chain of [addMarkers],
    [registerMapClickEvent] and [registerMapZoomEvent] calls on the new
    facade, the click and zoom lists are exactly the functions registered,
    in order, and the marker list is exactly the markers created for the
    entries handed to [addMarkers], in order, each holding its entry. *)
Theorem new_facade_lists (elem options options_icon : value) (cs : list Call)
    (w : World) :
  get_prop options "icon" = Return options_icon ->
  forallb only_adds cs = true ->
  Forall (fun entry => valid_entry entry = true) (added_entries cs) ->
  exists (w0 : World) (this : fref) (f0 : Map),
    new_Map elem options w = (w0, Return this)
    /\ facades w0 !! this = Some f0
    /\ map f0 = None
    /\ markers f0 = []
    /\ mapClickCallbacks f0 = []
    /\ mapZoomCallbacks f0 = []
    /\ (forall cs', call_init ∉ cs' ->
          (map <$> facades (fst (chain this cs' w0)) !! this) = Some None)
    /\ (exists (w1 : World) (widget : wref),
          init this w0 = (w1, Return this)
          /\ (map <$> facades w1 !! this) = Some (Some widget))
    /\ exists (w1 : World) (f1 : Map),
         chain this cs w0 = (w1, Return this)
         /\ facades w1 !! this = Some f1
         /\ map f1 = None
         /\ mapClickCallbacks f1 = added_clicks cs
         /\ mapZoomCallbacks f1 = added_zooms cs
         /\ markers f1 = seq (length (marker_store w)) (length (added_entries cs))
         /\ (data <$> drop (length (marker_store w)) (marker_store w1))
            = added_entries cs.
Proof.
  intros Hicon Hadds Hvalid.
  set (w0 := with_facades (facades w ++ [constructed elem options_icon]) w).
  pose proof (new_facade_lookup elem options_icon w) as Hf0. fold w0 in Hf0.
  exists w0, (length (facades w)), (constructed elem options_icon).
  split; [apply run_new_Map, Hicon|]. split; [exact Hf0|].
  do 4 (split; [reflexivity|]).
  split; [|split].
  - intros cs' Hcs'. rewrite (chain_without_init_keeps_map _ _ _ Hcs'), Hf0.
    reflexivity.
  - eexists _, (length (widget_store w)). split; [apply run_init, Hf0|].
    cbn. rewrite list_lookup_insert_eq; [reflexivity|].
    rewrite length_app. cbn. lia.
  - destruct (run_additions (length (facades w)) cs w0 _ Hf0 Hadds Hvalid)
      as (w1 & Hrun & Hf1 & Hms & _ & _).
    eexists w1, _. split; [exact Hrun|]. split; [exact Hf1|].
    do 4 (split; [reflexivity|]).
    rewrite Hms. cbn. rewrite drop_app_length. apply data_marker_for.
Qed.

Lemma new_facade_lists_witness :
  exists (w0 : World) (this : fref) (f0 : Map),
    new_Map (VString "#map") (VObject []) empty_world = (w0, Return this)
    /\ facades w0 !! this = Some f0
    /\ map f0 = None
    /\ markers f0 = []
    /\ mapClickCallbacks f0 = []
    /\ mapZoomCallbacks f0 = []
    /\ (forall cs', call_init ∉ cs' ->
          (map <$> facades (fst (chain this cs' w0)) !! this) = Some None)
    /\ (exists (w1 : World) (widget : wref),
          init this w0 = (w1, Return this)
          /\ (map <$> facades w1 !! this) = Some (Some widget))
    /\ exists (w1 : World) (f1 : Map),
         chain this adding_chain w0 = (w1, Return this)
         /\ facades w1 !! this = Some f1
         /\ map f1 = None
         /\ mapClickCallbacks f1 = added_clicks adding_chain
         /\ mapZoomCallbacks f1 = added_zooms adding_chain
         /\ markers f1 = seq (length (marker_store empty_world)) (length (added_entries adding_chain))
         /\ (data <$> drop (length (marker_store empty_world)) (marker_store w1))
            = added_entries adding_chain.
Proof.
  apply (new_facade_lists (VString "#map") (VObject []) VUndefined adding_chain
           empty_world).
  - reflexivity.
  - reflexivity.
  - repeat constructor.
Defined.

Example adding_chain_computed :
  let w := fst ((this ← new_Map (VString "#map") (VObject []);
                 chain this [call_registerMapClickEvent (VFunction "onClick");
                             call_addMarkers [entry_a; entry_b] (VFunction "onPin");
                             call_registerMapZoomEvent (VFunction "onZoom");
                             call_registerMapClickEvent VNull]) empty_world) in
  (mapClickCallbacks <$> facades w !! 0) = Some [VFunction "onClick"]
  /\ (mapZoomCallbacks <$> facades w !! 0) = Some [VFunction "onZoom"]
  /\ (markers <$> facades w !! 0) = Some [0; 1]
  /\ (data <$> marker_store w) = [entry_a; entry_b].
Proof. repeat split. Qed.


(* ===================================================================== *)
(** ** The widget methods: [setCenter], [setZoom], [getZoom] *)
(* ===================================================================== *)

Lemma get_index_outcome (v : value) (i : nat) :
  ((v = VUndefined \/ v = VNull) /\ get_index v i = Throw TypeError)
  \/ (v <> VUndefined /\ v <> VNull /\ exists x, get_index v i = Return x).
Proof.
  destruct v; cbn; first [left; split; [auto | reflexivity] | right];
    (split; [discriminate|]; split; [discriminate|]; eexists; reflexivity).
Qed.

(** X1.  On a facade that has its widget, [setCenter(latLng)] with a
    [latLng] that can be indexed returns the facade and makes the widget's
    centre [LatLng(latLng[0], latLng[1])], whatever the two values are (no
    range or type check is made); the widget's zoom, the markers, the
    facade and everything else in the store are as they were. *)
Theorem setCenter_moves_widget (this : fref) (latLng a b : value) (f : Map)
    (widget : wref) (g : Widget) (w : World) :
  get_index latLng 0 = Return a ->
  get_index latLng 1 = Return b ->
  facades w !! this = Some f ->
  map f = Some widget ->
  widget_store w !! widget = Some g ->
  setCenter this latLng w
  = (with_widget_store
       (<[widget := {| view := view g;
                        widget_options := widget_options g;
                        current_center := {| lat := a; lng := b |};
                        current_zoom := current_zoom g |}]> (widget_store w)) w,
     Return this).
Proof.
  intros Ha Hb Hf Hmap Hg. unfold setCenter.
  rewrite (run_bind_lift _ _ _ _ Ha), (run_bind_lift _ _ _ _ Hb). cbv zeta.
  rewrite (run_bind_Return _ _ _ _ _ (run_this_map _ _ _ _ Hf Hmap)).
  run. rewrite (alter_is_insert _ _ _ _ Hg). reflexivity.
Qed.

Lemma setCenter_moves_widget_witness :
  setCenter 0 (VArray [VInt 200; VString "north"]) live_world
  = (with_widget_store
       (<[0 := {| view := view (widget_of new_facade);
                   widget_options := widget_options (widget_of new_facade);
                   current_center := {| lat := VInt 200; lng := VString "north" |};
                   current_zoom := current_zoom (widget_of new_facade) |}]>
          (widget_store live_world)) live_world,
     Return 0).
Proof.
  apply (setCenter_moves_widget 0 (VArray [VInt 200; VString "north"])
           (VInt 200) (VString "north") live_facade 0 (widget_of new_facade)
           live_world); reflexivity.
Defined.

(** X2.  While the facade has no widget (from construction until [init]),
    [setCenter] with any argument, [setZoom] with any number and [getZoom]
    throw a TypeError and leave the store as it was. *)
Theorem widget_methods_need_init (this : fref) (f : Map) (w : World) :
  facades w !! this = Some f ->
  map f = None ->
  (forall latLng, setCenter this latLng w = (w, Throw TypeError))
  /\ (forall n, setZoom this (VNumber n) w = (w, Throw TypeError))
  /\ getZoom this w = (w, Throw TypeError).
Proof.
  intros Hf Hmap. split; [|split].
  - intros latLng. unfold setCenter.
    destruct (get_index_outcome latLng 0) as [[_ H0] | (Hu & Hn & a & H0)].
    + rewrite (run_bind_lift_Throw _ _ _ _ H0). reflexivity.
    + destruct (get_index_outcome latLng 1) as [[[E|E] _] | (_ & _ & b & H1)];
        try contradiction.
      rewrite (run_bind_lift _ _ _ _ H0), (run_bind_lift _ _ _ _ H1). cbv zeta.
      rewrite (run_bind_Throw _ _ _ _ _ (run_this_map_null _ _ _ Hf Hmap)).
      reflexivity.
  - intros n. apply (run_setZoom_before_init _ _ _ _ Hf Hmap).
  - unfold getZoom.
    rewrite (run_bind_Throw _ _ _ _ _ (run_this_map_null _ _ _ Hf Hmap)).
    reflexivity.
Qed.

Lemma widget_methods_need_init_witness :
  (forall latLng, setCenter 0 latLng new_world = (new_world, Throw TypeError))
  /\ (forall n, setZoom 0 (VNumber n) new_world = (new_world, Throw TypeError))
  /\ getZoom 0 new_world = (new_world, Throw TypeError).
Proof. apply (widget_methods_need_init 0 new_facade new_world); reflexivity. Defined.

(** [setCenter(undefined)] and [setCenter(null)] throw a TypeError at
    [latLng[0]], before the widget is touched, with or without a widget. *)
Lemma setCenter_without_coordinates (this : fref) (latLng : value) (w : World) :
  latLng = VUndefined \/ latLng = VNull ->
  setCenter this latLng w = (w, Throw TypeError).
Proof. intros [-> | ->]; reflexivity. Qed.

(* ===================================================================== *)
(** ** Showing markers *)
(* ===================================================================== *)

Lemma with_marker_map_same (m : Marker) : with_marker_map (marker_map m) m = m.
Proof. destruct m; reflexivity. Qed.

Lemma setMap_each_lookup _map rs store (r : mref) :
  setMap_each _map rs store !! r
  = if decide (r ∈ rs) then with_marker_map _map <$> store !! r else store !! r.
Proof.
  destruct (decide (r ∈ rs)) as [H|H];
    [apply setMap_each_stored | apply setMap_each_other]; exact H.
Qed.

Lemma setMap_each_again _map _map' rs store :
  setMap_each _map rs (setMap_each _map' rs store) = setMap_each _map rs store.
Proof.
  apply list_eq. intros r. rewrite !setMap_each_lookup.
  destruct (decide (r ∈ rs)); [|reflexivity].
  destruct (store !! r) as [[]|]; reflexivity.
Qed.

Lemma setMap_each_same _map rs store :
  (forall r m, r ∈ rs -> store !! r = Some m -> marker_map m = _map) ->
  setMap_each _map rs store = store.
Proof.
  intros Hsame. apply list_eq. intros r. rewrite setMap_each_lookup.
  destruct (decide (r ∈ rs)) as [Hr|]; [|reflexivity].
  destruct (store !! r) as [m|] eqn:Hm; [|reflexivity].
  cbn. rewrite <- (Hsame r m Hr Hm), with_marker_map_same. reflexivity.
Qed.

(** X3.  Whatever the facade holds, [showMarkers] returns the facade,
    leaves every facade as it was, and sets the map of every stored marker
    to the facade's [map] (the marker's [map] reads so afterwards); each
    such marker is otherwise as it was, no other marker is touched and the
    marker store keeps its size. *)
Theorem showMarkers_attaches_all (this : fref) (f : Map) (w : World) :
  facades w !! this = Some f ->
  exists (w' : World),
    showMarkers this w = (w', Return this)
    /\ facades w' = facades w
    /\ length (marker_store w') = length (marker_store w)
    /\ (forall (r : mref) (m : Marker),
          r ∈ markers f -> marker_store w !! r = Some m ->
          exists m',
            marker_store w' !! r = Some m'
            /\ marker_map m' = map f
            /\ position m' = position m
            /\ marker_icon m' = marker_icon m
            /\ data m' = data m)
    /\ (forall (r : mref), r ∉ markers f -> marker_store w' !! r = marker_store w !! r).
Proof.
  intros Hf. eexists. split; [apply run_showMarkers, Hf|].
  split; [reflexivity|]. split; [|split].
  - cbn. apply setMap_each_length.
  - intros r m Hr Hm. cbn. apply setMap_each_stored_fields; assumption.
  - intros r Hr. cbn. apply setMap_each_other, Hr.
Qed.

Lemma showMarkers_attaches_all_witness :
  exists (w' : World),
    showMarkers 0 hidden_world = (w', Return 0)
    /\ facades w' = facades hidden_world
    /\ length (marker_store w') = length (marker_store hidden_world)
    /\ (forall (r : mref) (m : Marker),
          r ∈ markers pinned_facade -> marker_store hidden_world !! r = Some m ->
          exists m',
            marker_store w' !! r = Some m'
            /\ marker_map m' = map pinned_facade
            /\ position m' = position m
            /\ marker_icon m' = marker_icon m
            /\ data m' = data m)
    /\ (forall (r : mref), r ∉ markers pinned_facade ->
          marker_store w' !! r = marker_store hidden_world !! r).
Proof. apply (showMarkers_attaches_all 0 pinned_facade hidden_world). reflexivity. Defined.

(** In [hidden_world] both markers are on no map; [showMarkers] puts them
    on the facade's widget. *)
Example showMarkers_read_back :
  (marker_map <$> marker_store hidden_world) = [None; None]
  /\ (marker_map <$> marker_store (fst (showMarkers 0 hidden_world)))
     = [Some 0; Some 0].
Proof. repeat split. Qed.

(** X4.  [clearMarkers] followed by [showMarkers] leaves the store that
    [showMarkers] alone leaves; when every stored marker was on the
    facade's [map], as the markers [addMarkers] creates are, it leaves the
    store exactly as it was before the two calls.  [showMarkers] followed
    by [clearMarkers] leaves the store that [clearMarkers] alone leaves. *)
Theorem clear_then_show (this : fref) (f : Map) (w : World) :
  facades w !! this = Some f ->
  chain this [call_clearMarkers; call_showMarkers] w = showMarkers this w
  /\ chain this [call_showMarkers; call_clearMarkers] w = clearMarkers this w
  /\ ((forall r m, r ∈ markers f -> marker_store w !! r = Some m ->
                   marker_map m = map f) ->
      chain this [call_clearMarkers; call_showMarkers] w = (w, Return this)).
Proof.
  intros Hf.
  assert (chain this [call_clearMarkers; call_showMarkers] w = showMarkers this w) as H1.
  { cbn [chain invoke].
    rewrite (run_bind_Return _ _ _ _ _ (run_clearMarkers _ _ _ Hf)).
    cbn [chain invoke].
    rewrite (run_bind_Return _ _ _ _ _
               (run_showMarkers this f
                  (with_marker_store (setMap_each None (markers f) (marker_store w)) w)
                  Hf)).
    rewrite (run_showMarkers _ _ _ Hf). cbn.
    rewrite setMap_each_again. reflexivity. }
  split; [exact H1|]. split.
  - cbn [chain invoke].
    rewrite (run_bind_Return _ _ _ _ _ (run_showMarkers _ _ _ Hf)).
    cbn [chain invoke].
    rewrite (run_bind_Return _ _ _ _ _
               (run_clearMarkers this f
                  (with_marker_store (setMap_each (map f) (markers f) (marker_store w)) w)
                  Hf)).
    rewrite (run_clearMarkers _ _ _ Hf). cbn.
    rewrite setMap_each_again. reflexivity.
  - intros Hsame. rewrite H1, (run_showMarkers _ _ _ Hf).
    rewrite (setMap_each_same _ _ _ Hsame), with_marker_store_id. reflexivity.
Qed.

Lemma clear_then_show_witness :
  chain 0 [call_clearMarkers; call_showMarkers] pinned_world = showMarkers 0 pinned_world
  /\ chain 0 [call_showMarkers; call_clearMarkers] pinned_world
     = clearMarkers 0 pinned_world
  /\ chain 0 [call_clearMarkers; call_showMarkers] pinned_world
     = (pinned_world, Return 0).
Proof.
  destruct (clear_then_show 0 pinned_facade pinned_world eq_refl) as (H1 & H2 & H3).
  split; [exact H1|]. split; [exact H2|]. apply H3.
  intros r m Hr Hm.
  apply list_elem_of_lookup in Hr as [i Hi].
  destruct i as [|[|i]]; cbn in Hi; try discriminate;
    injection Hi as <-; cbn in Hm; injection Hm as <-; reflexivity.
Defined.

(** X5.  On a facade without a widget [showMarkers] hides: it returns
    the facade, leaves every facade as it was, and every stored marker
    ends on no map (its [map] reads null afterwards, also when it was on
    some widget before) and is otherwise as it was; the store it leaves is
    the one [clearMarkers] leaves. *)
Theorem showMarkers_before_init (this : fref) (f : Map) (w : World) :
  facades w !! this = Some f ->
  map f = None ->
  exists (w' : World),
    showMarkers this w = (w', Return this)
    /\ clearMarkers this w = (w', Return this)
    /\ facades w' = facades w
    /\ (forall (r : mref) (m : Marker),
          r ∈ markers f -> marker_store w !! r = Some m ->
          exists m',
            marker_store w' !! r = Some m'
            /\ marker_map m' = None
            /\ position m' = position m
            /\ marker_icon m' = marker_icon m
            /\ data m' = data m)
    /\ (forall (r : mref), r ∉ markers f -> marker_store w' !! r = marker_store w !! r).
Proof.
  intros Hf Hmap. eexists. split; [apply run_showMarkers, Hf|].
  rewrite Hmap. split; [apply run_clearMarkers, Hf|].
  split; [reflexivity|]. split.
  - intros r m Hr Hm. cbn. apply setMap_each_stored_fields; assumption.
  - intros r Hr. cbn. apply setMap_each_other, Hr.
Qed.

Lemma showMarkers_before_init_witness :
  exists (w' : World),
    showMarkers 1 borrowed_world = (w', Return 1)
    /\ clearMarkers 1 borrowed_world = (w', Return 1)
    /\ facades w' = facades borrowed_world
    /\ (forall (r : mref) (m : Marker),
          r ∈ markers borrowed_facade -> marker_store borrowed_world !! r = Some m ->
          exists m',
            marker_store w' !! r = Some m'
            /\ marker_map m' = None
            /\ position m' = position m
            /\ marker_icon m' = marker_icon m
            /\ data m' = data m)
    /\ (forall (r : mref), r ∉ markers borrowed_facade ->
          marker_store w' !! r = marker_store borrowed_world !! r).
Proof. apply (showMarkers_before_init 1 borrowed_facade borrowed_world); reflexivity. Defined.

(** In [borrowed_world] the second facade has no widget and its marker is
    on the first facade's widget; its [showMarkers] takes the marker off. *)
Example showMarkers_before_init_read_back :
  (map <$> facades borrowed_world !! 1) = Some None
  /\ (markers <$> facades borrowed_world !! 1) = Some [0]
  /\ (marker_map <$> marker_store borrowed_world) = [Some 0]
  /\ (marker_map <$> marker_store (fst (showMarkers 1 borrowed_world))) = [None].
Proof. repeat split. Qed.

(* ===================================================================== *)
(** ** More on [addMarkers] and marker events *)
(* ===================================================================== *)

Lemma for_loop_app (body : nat -> M unit) :
  forall (n m i : nat) (w : World),
    for_loop (n + m) i body w
    = match for_loop n i body w with
      | (w', Return _) => for_loop m (i + n) body w'
      | (w', Throw e) => (w', Throw e)
      end.
Proof.
  induction n as [|n IH]; intros m i w.
  - cbn. rewrite Nat.add_0_r. reflexivity.
  - cbn [Nat.add for_loop]. rewrite !run_bind.
    destruct (body i w) as [w1 [[]|e]]; [|reflexivity].
    rewrite IH. replace (S i + n) with (i + S n) by lia. reflexivity.
Qed.

Lemma invalid_entry_throws (entry : value) :
  valid_entry entry = false -> coordinate entry 0 = Throw TypeError.
Proof.
  unfold valid_entry, coordinate.
  destruct (get_prop entry "latLng") as [latLng|e] eqn:Hll.
  - destruct (get_index_outcome latLng 0) as [[_ H0] | (Hu & Hn & a & H0)];
      [intros _; exact H0|].
    destruct (get_index_outcome latLng 1) as [[[E|E] _] | (_ & _ & b & H1)];
      try contradiction.
    rewrite H0, H1. discriminate.
  - intros _. destruct entry; cbn in Hll; try discriminate; injection Hll as <-;
      reflexivity.
Qed.

(** X6.  [addMarkers] stops at the first entry whose [latLng] cannot be
    read: it throws a TypeError, the markers of the entries before it have
    been created, given their listener and appended to [this.markers], and
    nothing is done for the entries after it. *)
Theorem addMarkers_stops_at_bad_entry (this : fref) (good rest : list value)
    (bad callback : value) (f : Map) (w : World) :
  facades w !! this = Some f ->
  Forall (fun entry => valid_entry entry = true) good ->
  valid_entry bad = false ->
  addMarkers this (good ++ bad :: rest) callback w
  = (added this f good callback w, Throw TypeError).
Proof.
  intros Hf Hgood Hbad. unfold addMarkers. cbv zeta. unfold for_.
  rewrite run_bind.
  match goal with |- context [for_loop _ _ ?b] => set (body := b) end.
  assert (forall i w f e,
            facades w !! this = Some f -> take (length good) (good ++ bad :: rest) !! i = Some e ->
            valid_entry e = true ->
            body i w = (added this f [e] callback w, Return tt)) as Hbody.
  { clear. intros i w f e Hf He Hv. subst body. cbv beta.
    apply lookup_take_Some in He as [He _].
    unfold valid_entry in Hv.
    destruct (coordinate e 0) as [a|] eqn:Ha; [|discriminate].
    destruct (coordinate e 1) as [b|] eqn:Hb; [|discriminate].
    rewrite He. simpl default.
    rewrite (run_bind_lift _ _ _ _ Ha), (run_bind_lift _ _ _ _ Hb).
    rewrite (run_bind_Return _ _ _ _ _ (run_deref _ _ _ Hf)).
    unfold added. cbn. unfold marker_for. rewrite Ha, Hb.
    run. rewrite (alter_is_insert _ _ _ _ Hf). reflexivity. }
  rewrite Nat.sub_0_r, length_app. cbn [length].
  rewrite for_loop_app.
  pose proof (addMarkers_loop this (take (length good) (good ++ bad :: rest)) callback
                body Hbody (length good) 0 w f Hf) as Hloop.
  rewrite take_app_length, drop_0 in Hloop.
  rewrite Hloop by first [reflexivity | exact Hgood].
  cbn [for_loop Nat.add]. rewrite run_bind. subst body. cbv beta.
  rewrite lookup_app_r by lia. rewrite Nat.sub_diag. simpl default.
  rewrite (run_bind_lift_Throw _ _ _ _ (invalid_entry_throws _ Hbad)). reflexivity.
Qed.

Lemma addMarkers_stops_at_bad_entry_witness :
  addMarkers 0 ([entry_a] ++ VObject [("data", VInt 1)] :: [entry_b])
    (VFunction "onPin") live_world
  = (added 0 live_facade [entry_a] (VFunction "onPin") live_world, Throw TypeError).
Proof.
  apply (addMarkers_stops_at_bad_entry 0 [entry_a] [entry_b]
           (VObject [("data", VInt 1)]) (VFunction "onPin") live_facade live_world).
  - reflexivity.
  - repeat constructor.
  - reflexivity.
Defined.

(** X7.  The marker [addMarkers] creates for an entry is placed at
    [LatLng(entry.latLng[0], entry.latLng[1])], has the facade's icon, and
    is on the facade's [map] as it is at that moment: the widget after
    [init], null before. *)
Theorem addMarkers_builds_marker (this : fref) (coordsArray : list value)
    (callback : value) (f : Map) (w : World) (i : nat) (entry latLng a b : value) :
  facades w !! this = Some f ->
  Forall (fun entry => valid_entry entry = true) coordsArray ->
  coordsArray !! i = Some entry ->
  get_prop entry "latLng" = Return latLng ->
  get_index latLng 0 = Return a ->
  get_index latLng 1 = Return b ->
  marker_store (fst (addMarkers this coordsArray callback w))
    !! (length (marker_store w) + i)
  = Some {| position := {| lat := a; lng := b |};
            marker_icon := icon f;
            marker_map := map f;
            data := entry |}.
Proof.
  intros Hf Hvalid He Hll Ha Hb.
  rewrite (run_addMarkers _ _ _ _ _ Hf Hvalid). cbn [fst].
  rewrite (added_marker_store _ _ _ _ _ _ _ He).
  unfold marker_for, coordinate. rewrite Hll, Ha, Hb. reflexivity.
Qed.

Lemma addMarkers_builds_marker_witness :
  marker_store (fst (addMarkers 0 [entry_a; entry_b] (VFunction "onPin") live_world))
    !! (length (marker_store live_world) + 1)
  = Some {| position := {| lat := VInt 3; lng := VInt 4 |};
            marker_icon := icon live_facade;
            marker_map := map live_facade;
            data := entry_b |}.
Proof.
  apply (addMarkers_builds_marker 0 [entry_a; entry_b] (VFunction "onPin") live_facade
           live_world 1 entry_b (VArray [VInt 3; VInt 4]) (VInt 3) (VInt 4));
    first [reflexivity | repeat constructor].
Defined.

(** X8.  Markers added before [init] are on no map, and [init] does not
    put them on the widget it constructs: they stay on no map until
    [showMarkers] is called, which puts them on the widget. *)
Theorem markers_added_before_init (this : fref) (coordsArray : list value)
    (callback : value) (f : Map) (w : World) (i : nat) (entry : value) :
  facades w !! this = Some f ->
  map f = None ->
  Forall (fun entry => valid_entry entry = true) coordsArray ->
  coordsArray !! i = Some entry ->
  exists (w1 : World),
    chain this [call_addMarkers coordsArray callback; call_init] w = (w1, Return this)
    /\ (map <$> facades w1 !! this) = Some (Some (length (widget_store w)))
    /\ (marker_map <$> marker_store w1 !! (length (marker_store w) + i)) = Some None
    /\ (marker_map <$> marker_store (fst (showMarkers this w1))
                         !! (length (marker_store w) + i))
       = Some (Some (length (widget_store w))).
Proof.
  intros Hf Hmap Hvalid He.
  assert (i < length coordsArray) as Hi by (eapply lookup_lt_Some, He).
  set (f1 := with_markers
               (markers f ++ seq (length (marker_store w)) (length coordsArray)) f).
  assert (facades (added this f coordsArray callback w) !! this = Some f1) as Hf1.
  { unfold added. cbn. apply list_lookup_insert_eq. eapply lookup_lt_Some, Hf. }
  assert (marker_store (added this f coordsArray callback w)
            !! (length (marker_store w) + i) = Some (marker_for f entry))
    as Hm by (apply added_marker_store, He).
  assert (widget_store (added this f coordsArray callback w) = widget_store w)
    as Hws by reflexivity.
  remember (added this f coordsArray callback w) as w0 eqn:Hw0.
  eexists. split.
  { cbn [chain invoke].
    rewrite (run_bind_Return _ _ _ _ _ (run_addMarkers _ _ _ _ _ Hf Hvalid)).
    rewrite <- Hw0. cbn [chain invoke].
    rewrite (run_bind_Return _ _ _ _ _ (run_init _ _ _ Hf1)). reflexivity. }
  split; [|split].
  - cbn. rewrite list_lookup_insert_eq by (eapply lookup_lt_Some, Hf1).
    rewrite Hws. reflexivity.
  - cbn. rewrite Hm. cbn. rewrite Hmap. reflexivity.
  - erewrite run_showMarkers.
    2:{ cbn. apply list_lookup_insert_eq. eapply lookup_lt_Some, Hf1. }
    cbn [fst marker_store with_marker_store].
    rewrite setMap_each_stored.
    + cbn. rewrite Hm, Hws. reflexivity.
    + cbn. apply elem_of_app. right. apply elem_of_seq. lia.
Qed.

Lemma markers_added_before_init_witness :
  exists (w1 : World),
    chain 0 [call_addMarkers [entry_a; entry_b] (VFunction "onPin"); call_init]
      new_world = (w1, Return 0)
    /\ (map <$> facades w1 !! 0) = Some (Some (length (widget_store new_world)))
    /\ (marker_map <$> marker_store w1 !! (length (marker_store new_world) + 1))
       = Some None
    /\ (marker_map <$> marker_store (fst (showMarkers 0 w1))
                         !! (length (marker_store new_world) + 1))
       = Some (Some (length (widget_store new_world))).
Proof.
  apply (markers_added_before_init 0 [entry_a; entry_b] (VFunction "onPin") new_facade
           new_world 1 entry_b); first [reflexivity | repeat constructor].
Defined.

(** X9.  [addMarkers] with an [onClick] that is not a function still
    creates and stores the markers; a click on one of them then calls
    nothing and raises nothing (the listener tests the callback when the
    event fires). *)
Theorem click_without_callback (this : fref) (coordsArray : list value)
    (callback : value) (f : Map) (w : World) (i : nat) (entry event : value) :
  facades w !! this = Some f ->
  listeners_allocated w ->
  Forall (fun entry => valid_entry entry = true) coordsArray ->
  coordsArray !! i = Some entry ->
  typeof callback <> "function" ->
  exists (w1 : World),
    addMarkers this coordsArray callback w = (w1, Return this)
    /\ (data <$> marker_store w1 !! (length (marker_store w) + i)) = Some entry
    /\ trigger (OnMarker (length (marker_store w) + i)) "click" event w1
       = (w1, Return tt).
Proof.
  intros Hf Hall Hvalid He Hty.
  assert (i < length coordsArray) as Hi by (eapply lookup_lt_Some, He).
  eexists. split; [apply run_addMarkers; eassumption|]. split.
  - rewrite (added_marker_store _ _ _ _ _ _ _ He). reflexivity.
  - eapply run_trigger_marker_not_callable.
    + apply added_listeners; assumption.
    + reflexivity.
    + exact Hty.
Qed.

Lemma click_without_callback_witness :
  exists (w1 : World),
    addMarkers 0 [entry_a; entry_b] VUndefined live_world = (w1, Return 0)
    /\ (data <$> marker_store w1 !! (length (marker_store live_world) + 0))
       = Some entry_a
    /\ trigger (OnMarker (length (marker_store live_world) + 0)) "click" VNull w1
       = (w1, Return tt).
Proof.
  apply (click_without_callback 0 [entry_a; entry_b] VUndefined live_facade live_world
           0 entry_a VNull); first [reflexivity | discriminate | repeat constructor].
Defined.

(** X10.  After [deleteMarkers] followed by [addMarkers], [this.markers]
    holds exactly the markers of that [addMarkers] call, in entry order,
    each holding its entry; the markers stored before are still in the
    marker store, on no map (their [map] reads null) and otherwise as they
    were. *)
Theorem delete_then_add (this : fref) (coordsArray : list value) (callback : value)
    (f : Map) (w : World) :
  facades w !! this = Some f ->
  Forall (fun entry => valid_entry entry = true) coordsArray ->
  exists (w1 : World) (f1 : Map),
    chain this [call_deleteMarkers; call_addMarkers coordsArray callback] w
    = (w1, Return this)
    /\ facades w1 !! this = Some f1
    /\ markers f1 = seq (length (marker_store w)) (length coordsArray)
    /\ (forall (i : nat) (entry : value),
          coordsArray !! i = Some entry ->
          (data <$> marker_store w1 !! (length (marker_store w) + i)) = Some entry)
    /\ (forall (r : mref) (m : Marker),
          r ∈ markers f -> marker_store w !! r = Some m ->
          exists m',
            marker_store w1 !! r = Some m'
            /\ marker_map m' = None
            /\ position m' = position m
            /\ marker_icon m' = marker_icon m
            /\ data m' = data m).
Proof.
  intros Hf Hvalid.
  assert (facades (with_facades (<[this := with_markers [] f]> (facades w))
                     (with_marker_store
                        (setMap_each None (markers f) (marker_store w)) w)) !! this
          = Some (with_markers [] f)) as Hf0.
  { cbn. apply list_lookup_insert_eq. eapply lookup_lt_Some, Hf. }
  eexists _, _. split.
  { cbn [chain invoke].
    rewrite (run_bind_Return _ _ _ _ _ (run_deleteMarkers _ _ _ Hf)).
    cbn [chain invoke].
    rewrite (run_bind_Return _ _ _ _ _ (run_addMarkers _ _ _ _ _ Hf0 Hvalid)).
    reflexivity. }
  split; [|split; [|split]].
  - unfold added. cbn. apply list_lookup_insert_eq.
    rewrite length_insert. eapply lookup_lt_Some, Hf.
  - cbn. rewrite setMap_each_length. reflexivity.
  - intros i entry He.
    pose proof (added_marker_store this (with_markers [] f) coordsArray callback
                  (with_facades (<[this := with_markers [] f]> (facades w))
                     (with_marker_store
                        (setMap_each None (markers f) (marker_store w)) w))
                  i entry He) as Hm.
    cbn [marker_store with_facades with_marker_store] in Hm.
    rewrite setMap_each_length in Hm. rewrite Hm. reflexivity.
  - intros r m Hr Hm.
    destruct (setMap_each_stored_fields None (markers f) (marker_store w) r m Hr Hm)
      as (m' & Hm' & Hfields).
    exists m'. split; [|exact Hfields]. cbn.
    rewrite lookup_app_l by (rewrite setMap_each_length; eapply lookup_lt_Some, Hm).
    exact Hm'.
Qed.

Lemma delete_then_add_witness :
  exists (w1 : World) (f1 : Map),
    chain 0 [call_deleteMarkers; call_addMarkers [entry_b] (VFunction "onPin")]
      pinned_world = (w1, Return 0)
    /\ facades w1 !! 0 = Some f1
    /\ markers f1 = seq (length (marker_store pinned_world)) (length [entry_b])
    /\ (forall (i : nat) (entry : value),
          [entry_b] !! i = Some entry ->
          (data <$> marker_store w1 !! (length (marker_store pinned_world) + i))
          = Some entry)
    /\ (forall (r : mref) (m : Marker),
          r ∈ markers pinned_facade -> marker_store pinned_world !! r = Some m ->
          exists m',
            marker_store w1 !! r = Some m'
            /\ marker_map m' = None
            /\ position m' = position m
            /\ marker_icon m' = marker_icon m
            /\ data m' = data m).
Proof.
  apply (delete_then_add 0 [entry_b] (VFunction "onPin") pinned_facade pinned_world);
    first [reflexivity | repeat constructor].
Defined.

(** In [pinned_world]: the two old markers end on no map, the new one is
    on the widget, and the list holds the new one only. *)
Example delete_then_add_read_back :
  let w1 := fst (chain 0 [call_deleteMarkers;
                          call_addMarkers [entry_b] (VFunction "onPin")] pinned_world) in
  (marker_map <$> marker_store w1) = [None; None; Some 0]
  /\ (markers <$> facades w1 !! 0) = Some [2].
Proof. repeat split. Qed.

Lemma run_function_listeners (r : mref) (eventName : string) (m : Marker)
    (event : value) :
  forall (gs : list fn) (w : World),
    marker_store w !! r = Some m ->
    run_listeners (function_listener r eventName <$> gs) (OnMarker r) event w
    = (with_calls (calls w ++ called_with (data m) gs) w, Return tt).
Proof.
  induction gs as [|g gs IH]; intros w Hm.
  - cbn. rewrite app_nil_r, with_calls_id. reflexivity.
  - cbn [fmap list_fmap run_listeners function_listener handler run_listener].
    simpl (String.eqb _ _). rewrite run_bind. unfold this_data. run. rewrite Hm.
    fold (function_listener r eventName).
    change (list_fmap fn Registration (function_listener r eventName) gs)
      with (function_listener r eventName <$> gs).
    rewrite (IH (with_calls (calls w ++ [(g, data m)]) w) Hm). cbn.
    rewrite <- app_assoc. reflexivity.
Qed.

(** X11.  [assignMarkerEvent] adds a listener and replaces none: when
    the listeners already attached to a marker for an event are the
    functions [gs], then after [assignMarkerEvent(marker, event, g)] the
    event calls [gs] and then [g], each once, in that order, each with the
    marker's [data]. *)
Theorem assignMarkerEvent_adds_listener (this : fref) (r : mref) (eventName : string)
    (gs : list fn) (g : fn) (m : Marker) (event : value) (w : World) :
  marker_store w !! r = Some m ->
  List.filter (listens (OnMarker r) eventName) (listeners w)
  = function_listener r eventName <$> gs ->
  exists (w1 : World),
    assignMarkerEvent this r eventName (VFunction g) w = (w1, Return this)
    /\ trigger (OnMarker r) eventName event w1
       = (with_calls (calls w1 ++ called_with (data m) (gs ++ [g])) w1, Return tt).
Proof.
  intros Hm Hregs. eexists. split; [reflexivity|].
  unfold trigger. rewrite run_bind. cbn [get_world listeners with_listeners].
  rewrite List.filter_app, Hregs. cbn [List.filter].
  assert (listens (OnMarker r) eventName
            {| target := OnMarker r; event_name := eventName;
               handler := MarkerListener (VFunction g) |} = true) as ->.
  { unfold listens. cbn. rewrite Nat.eqb_refl, String.eqb_refl. reflexivity. }
  change ([{| target := OnMarker r; event_name := eventName;
              handler := MarkerListener (VFunction g) |}])
    with (function_listener r eventName <$> [g]).
  rewrite <- fmap_app.
  apply (run_function_listeners r eventName m event (gs ++ [g])). exact Hm.
Qed.

Lemma assignMarkerEvent_adds_listener_witness :
  exists (w1 : World),
    assignMarkerEvent 0 1 "click" (VFunction "second") pinned_world = (w1, Return 0)
    /\ trigger (OnMarker 1) "click" VUndefined w1
       = (with_calls (calls w1 ++ called_with (data (marker_for live_facade entry_b))
                                    (["onPin"] ++ ["second"])) w1,
          Return tt).
Proof.
  apply (assignMarkerEvent_adds_listener 0 1 "click" ["onPin"] "second"
           (marker_for live_facade entry_b) VUndefined pinned_world); reflexivity.
Defined.

(* ===================================================================== *)
(** ** The events [init] wires *)
(* ===================================================================== *)

Lemma no_listener_on_fresh_widget (w : World) (r : wref) (eventName : string) :
  listeners_allocated w -> length (widget_store w) <= r ->
  List.filter (listens (OnWidget r) eventName) (listeners w) = [].
Proof.
  unfold listeners_allocated. intros Hall Hr.
  induction Hall as [|reg regs Hreg _ IH]; [reflexivity|].
  cbn. rewrite IH. unfold listens.
  destruct (target reg) as [r'|r']; cbn; [reflexivity|].
  destruct (Nat.eqb_spec r' r) as [->|_]; [lia|reflexivity].
Qed.

Lemma run_register_clicks (this : fref) :
  forall (gs : list fn) (w : World) (f : Map),
    facades w !! this = Some f ->
    chain this (register_clicks gs) w
    = (with_facades
         (<[this := with_mapClickCallbacks (mapClickCallbacks f ++ (VFunction <$> gs)) f]>
            (facades w)) w,
       Return this).
Proof.
  induction gs as [|g gs IH]; intros w f Hf.
  - cbn. rewrite app_nil_r.
    replace (with_mapClickCallbacks (mapClickCallbacks f) f) with f by (destruct f; reflexivity).
    rewrite (list_insert_id _ _ _ Hf), with_facades_id. reflexivity.
  - cbn [register_clicks fmap list_fmap chain invoke].
    rewrite (run_bind_Return _ _ _ _ _
               (run_registerMapClickEvent _ (VFunction g) _ _ Hf eq_refl)).
    change (list_fmap fn Call (fun g => call_registerMapClickEvent (VFunction g)) gs)
      with (register_clicks gs).
    erewrite IH.
    2:{ cbn. apply list_lookup_insert_eq. eapply lookup_lt_Some, Hf. }
    cbn. rewrite list_insert_insert_eq, <- app_assoc. reflexivity.
Qed.

Lemma run_register_zooms (this : fref) :
  forall (gs : list fn) (w : World) (f : Map),
    facades w !! this = Some f ->
    chain this (register_zooms gs) w
    = (with_facades
         (<[this := with_mapZoomCallbacks (mapZoomCallbacks f ++ (VFunction <$> gs)) f]>
            (facades w)) w,
       Return this).
Proof.
  induction gs as [|g gs IH]; intros w f Hf.
  - cbn. rewrite app_nil_r.
    replace (with_mapZoomCallbacks (mapZoomCallbacks f) f) with f by (destruct f; reflexivity).
    rewrite (list_insert_id _ _ _ Hf), with_facades_id. reflexivity.
  - cbn [register_zooms fmap list_fmap chain invoke].
    rewrite (run_bind_Return _ _ _ _ _
               (run_registerMapZoomEvent _ (VFunction g) _ _ Hf eq_refl)).
    change (list_fmap fn Call (fun g => call_registerMapZoomEvent (VFunction g)) gs)
      with (register_zooms gs).
    erewrite IH.
    2:{ cbn. apply list_lookup_insert_eq. eapply lookup_lt_Some, Hf. }
    cbn. rewrite list_insert_insert_eq, <- app_assoc. reflexivity.
Qed.

Lemma run_trigger_widget_click (w : World) (widget : wref) (this : fref) (f : Map)
    (gs : list fn) (reg : Registration) (event : value) :
  List.filter (listens (OnWidget widget) "click") (listeners w) = [reg] ->
  handler reg = MapClickListener this ->
  facades w !! this = Some f ->
  mapClickCallbacks f = VFunction <$> gs ->
  trigger (OnWidget widget) "click" event w
  = (with_calls (calls w ++ called_with event gs) w, Return tt).
Proof.
  intros Hregs Hh Hf Hgs. unfold trigger. rewrite run_bind. cbn [get_world].
  rewrite Hregs. cbn [run_listeners]. rewrite Hh. cbn [run_listener].
  rewrite run_bind.
  rewrite (run_bind_Return _ _ _ _ _
             (run_onMapInteract this name_mapClickCallbacks event f gs w Hf Hgs)).
  reflexivity.
Qed.

Lemma run_trigger_widget_zoom (w : World) (widget current : wref) (this : fref)
    (f : Map) (g : Widget) (gs : list fn) (reg : Registration) (event : value) :
  List.filter (listens (OnWidget widget) "zoom_changed") (listeners w) = [reg] ->
  handler reg = MapZoomListener this ->
  facades w !! this = Some f ->
  map f = Some current ->
  widget_store w !! current = Some g ->
  mapZoomCallbacks f = VFunction <$> gs ->
  trigger (OnWidget widget) "zoom_changed" event w
  = (with_calls (calls w ++ called_with (current_zoom g) gs) w, Return tt).
Proof.
  intros Hregs Hh Hf Hmap Hg Hgs. unfold trigger. rewrite run_bind. cbn [get_world].
  rewrite Hregs. cbn [run_listeners]. rewrite Hh. cbn [run_listener].
  rewrite run_bind.
  rewrite (run_bind_Return _ _ _ _ _ (run_getZoom _ _ _ _ _ Hf Hmap Hg)).
  rewrite (run_bind_Return _ _ _ _ _
             (run_onMapInteract this name_mapZoomCallbacks (current_zoom g) f gs w Hf Hgs)).
  reflexivity.
Qed.

(** The store [init] leaves (see [run_init]). *)
Lemma init_result (this : fref) (f : Map) (w : World) :
  facades w !! this = Some f ->
  exists (w0 : World),
    init this w = (w0, Return this)
    /\ facades w0 !! this = Some (with_map (Some (length (widget_store w))) f)
    /\ widget_store w0 = widget_store w ++ [widget_of f]
    /\ calls w0 = calls w
    /\ marker_store w0 = marker_store w
    /\ (listeners_allocated w ->
        List.filter (listens (OnWidget (length (widget_store w))) "click") (listeners w0)
        = [ {| target := OnWidget (length (widget_store w)); event_name := "click";
               handler := MapClickListener this |} ]
        /\ List.filter (listens (OnWidget (length (widget_store w))) "zoom_changed")
             (listeners w0)
           = [ {| target := OnWidget (length (widget_store w));
                  event_name := "zoom_changed";
                  handler := MapZoomListener this |} ]).
Proof.
  intros Hf. eexists. split; [apply run_init, Hf|]. cbn.
  split; [apply list_lookup_insert_eq; eapply lookup_lt_Some, Hf|].
  do 3 (split; [reflexivity|]).
  intros Hall. rewrite !List.filter_app, !(no_listener_on_fresh_widget w) by auto.
  unfold listens. cbn. rewrite Nat.eqb_refl. split; reflexivity.
Qed.

(** X12.  After [init], a click event of the widget calls every function
    in the facade's click list, once each, in registration order, with the
    event object; this includes the functions registered before [init]
    and those registered after it. *)
Theorem init_wires_click (this : fref) (f : Map) (w : World)
    (earlier gs : list fn) (event : value) :
  facades w !! this = Some f ->
  listeners_allocated w ->
  mapClickCallbacks f = VFunction <$> earlier ->
  exists (w1 : World),
    chain this (call_init :: register_clicks gs) w = (w1, Return this)
    /\ (map <$> facades w1 !! this) = Some (Some (length (widget_store w)))
    /\ trigger (OnWidget (length (widget_store w))) "click" event w1
       = (with_calls (calls w1 ++ called_with event (earlier ++ gs)) w1, Return tt).
Proof.
  intros Hf Hall Hclicks.
  destruct (init_result this f w Hf) as (w0 & Hinit & Hf0 & _ & _ & _ & Hls).
  destruct (Hls Hall) as [Hclick _].
  eexists. split.
  { cbn [chain invoke]. rewrite (run_bind_Return _ _ _ _ _ Hinit).
    apply (run_register_clicks this gs w0 _ Hf0). }
  assert (facades (with_facades
                     (<[this := with_mapClickCallbacks
                                  (mapClickCallbacks
                                     (with_map (Some (length (widget_store w))) f)
                                   ++ (VFunction <$> gs))
                                  (with_map (Some (length (widget_store w))) f)]>
                        (facades w0)) w0) !! this
          = Some (with_mapClickCallbacks
                    (mapClickCallbacks (with_map (Some (length (widget_store w))) f)
                     ++ (VFunction <$> gs))
                    (with_map (Some (length (widget_store w))) f))) as Hf1.
  { cbn. apply list_lookup_insert_eq. eapply lookup_lt_Some, Hf0. }
  split; [rewrite Hf1; reflexivity|].
  eapply run_trigger_widget_click.
  - exact Hclick.
  - reflexivity.
  - exact Hf1.
  - cbn. rewrite Hclicks, fmap_app. reflexivity.
Qed.

Lemma init_wires_click_witness :
  exists (w1 : World),
    chain 0 (call_init :: register_clicks ["later"])
      (fst (registerMapClickEvent 0 (VFunction "early") new_world))
    = (w1, Return 0)
    /\ (map <$> facades w1 !! 0)
       = Some (Some (length (widget_store
                               (fst (registerMapClickEvent 0 (VFunction "early")
                                       new_world)))))
    /\ trigger (OnWidget (length (widget_store
                                    (fst (registerMapClickEvent 0 (VFunction "early")
                                            new_world)))))
         "click" (VString "event") w1
       = (with_calls (calls w1 ++ called_with (VString "event") (["early"] ++ ["later"]))
            w1,
          Return tt).
Proof.
  apply (init_wires_click 0
           (with_mapClickCallbacks [VFunction "early"] new_facade)
           (fst (registerMapClickEvent 0 (VFunction "early") new_world))
           ["early"] ["later"] (VString "event"));
    first [reflexivity | constructor].
Defined.

(** X13.  After [init], a zoom_changed event of the widget calls every
    function in the facade's zoom list, once each, in registration order,
    with the zoom the widget has when the event fires: here the number
    handed to [setZoom] just before. *)
Theorem init_wires_zoom (this : fref) (f : Map) (w : World)
    (earlier gs : list fn) (n : number) (event : value) :
  facades w !! this = Some f ->
  listeners_allocated w ->
  mapZoomCallbacks f = VFunction <$> earlier ->
  exists (w1 : World),
    chain this (call_init :: register_zooms gs ++ [call_setZoom (VNumber n)]) w
    = (w1, Return this)
    /\ trigger (OnWidget (length (widget_store w))) "zoom_changed" event w1
       = (with_calls (calls w1 ++ called_with (VNumber n) (earlier ++ gs)) w1,
          Return tt).
Proof.
  intros Hf Hall Hzooms.
  destruct (init_result this f w Hf) as (w0 & Hinit & Hf0 & Hws & _ & _ & Hls).
  destruct (Hls Hall) as [_ Hzoom].
  set (f0 := with_map (Some (length (widget_store w))) f) in *.
  set (f1 := with_mapZoomCallbacks (mapZoomCallbacks f0 ++ (VFunction <$> gs)) f0).
  remember (with_facades (<[this := f1]> (facades w0)) w0) as w2 eqn:Hw2.
  assert (facades w2 !! this = Some f1) as Hf1.
  { subst w2. cbn. apply list_lookup_insert_eq. eapply lookup_lt_Some, Hf0. }
  assert (widget_store w2 !! length (widget_store w) = Some (widget_of f)) as Hg.
  { subst w2. cbn. rewrite Hws, lookup_app_r, Nat.sub_diag by lia. reflexivity. }
  assert (listeners w2 = listeners w0) as Hl2 by (subst w2; reflexivity).
  eexists. split.
  { cbn [chain invoke]. rewrite (run_bind_Return _ _ _ _ _ Hinit).
    rewrite chain_app, (run_register_zooms this gs w0 _ Hf0).
    fold f1. rewrite <- Hw2. cbn [chain invoke].
    rewrite (run_bind_Return _ _ _ _ _
               (run_setZoom_number this n f1 _ _ w2 Hf1 eq_refl Hg)).
    reflexivity. }
  eapply (run_trigger_widget_zoom _ _ (length (widget_store w)) this f1
            (with_current_zoom (VNumber n) (widget_of f))).
  - cbn. rewrite Hl2. exact Hzoom.
  - reflexivity.
  - exact Hf1.
  - reflexivity.
  - cbn. apply list_lookup_insert_eq. eapply lookup_lt_Some, Hg.
  - cbn. rewrite Hzooms, fmap_app. reflexivity.
Qed.

Lemma init_wires_zoom_witness :
  exists (w1 : World),
    chain 0 (call_init :: register_zooms ["onZoom"] ++ [call_setZoom (VNumber (Finite 9))])
      new_world
    = (w1, Return 0)
    /\ trigger (OnWidget (length (widget_store new_world))) "zoom_changed" VUndefined w1
       = (with_calls (calls w1 ++ called_with (VNumber (Finite 9)) ([] ++ ["onZoom"])) w1,
          Return tt).
Proof.
  apply (init_wires_zoom 0 new_facade new_world [] ["onZoom"] (Finite 9) VUndefined);
    first [reflexivity | constructor].
Defined.

(* ===================================================================== *)
(** ** The constructor's argument and the loader's guard *)
(* ===================================================================== *)

(** X14.  [new Map(elem, options)] throws a TypeError, and creates
    nothing, exactly when [options] is undefined or null (as in
    [new Map(elem)]); any other value, an object without [icon] or a
    primitive included, builds a facade. *)
Theorem new_Map_needs_options (elem options : value) (w : World) :
  (options = VUndefined \/ options = VNull ->
   new_Map elem options w = (w, Throw TypeError))
  /\ (options <> VUndefined -> options <> VNull ->
      exists options_icon,
        get_prop options "icon" = Return options_icon
        /\ new_Map elem options w
           = (with_facades (facades w ++ [constructed elem options_icon]) w,
              Return (length (facades w)))).
Proof.
  split.
  - apply run_new_Map_without_options.
  - intros Hu Hn.
    assert (exists v, get_prop options "icon" = Return v) as [v Hv].
    { destruct options; try contradiction; cbn; eauto. }
    exists v. split; [exact Hv|]. apply run_new_Map, Hv.
Qed.

Lemma new_Map_needs_options_witness :
  new_Map (VString "#map") VUndefined empty_world = (empty_world, Throw TypeError)
  /\ exists options_icon,
       get_prop (VInt 5) "icon" = Return options_icon
       /\ new_Map (VString "#map") (VInt 5) empty_world
          = (with_facades
               (facades empty_world ++ [constructed (VString "#map") options_icon])
               empty_world,
             Return (length (facades empty_world))).
Proof.
  split.
  - apply (proj1 (new_Map_needs_options (VString "#map") VUndefined empty_world)).
    left. reflexivity.
  - apply (proj2 (new_Map_needs_options (VString "#map") (VInt 5) empty_world));
      discriminate.
Defined.

(** X15.  What the callback handed to [require] does, for every state of
    the global [google]: undeclared, it throws a ReferenceError; truthy
    (any object, with or without [maps]), it throws nothing and resolves
    the promise with [Map]; undefined or null, it throws a TypeError;
    any other falsy value, it throws the error of line 74.  Whenever it
    throws, the promise is left as it was: it is never rejected. *)
Theorem require_callback_outcomes (google : option value) (promise : Deferred) :
  require_callback google promise
  = match google with
    | None => (promise, Throw ReferenceError)
    | Some g =>
        if truthy g then (resolved_with_Map, Return tt)
        else match g with
             | VUndefined | VNull => (promise, Throw TypeError)
             | _ => (promise, Throw (Error "Maps library could not be loaded!"))
             end
    end.
Proof.
  destruct google as [g|]; [|reflexivity].
  unfold require_callback, library_missing.
  destruct (truthy g) eqn:Hg; [reflexivity|].
  destruct g; cbn in *; try discriminate Hg; reflexivity.
Qed.

(* ===================================================================== *)
(** ** What every method and every event leaves alone *)
(* ===================================================================== *)

(** Taking a method apart down to the single changes it makes to the
    store; what is left to prove is that each such change keeps the
    property. *)
Ltac preserve_all :=
  repeat match goal with
    | |- preserves _ (deref _) => apply preserves_deref
    | |- preserves _ (_ ≫= _) => apply preserves_bind; [| intros ?]
    | |- preserves _ (ret _) => apply preserves_ret
    | |- preserves _ (throw _) => apply preserves_throw
    | |- preserves _ (lift _) => apply preserves_lift
    | |- preserves _ get_world => apply preserves_get_world
    | |- preserves _ (for_loop _ _ _) => apply preserves_for_loop; intros ?
    | |- preserves _ (for_ _ _ _) => unfold for_
    | |- preserves _ (call _ _) => unfold call
    | |- preserves _ (modify _) => apply preserves_modify; intros ? ?
    | |- preserves _ (update _ _) => unfold update
    | |- preserves _ (this_map _) => unfold this_map
    | |- preserves _ (this_data _) => unfold this_data
    | |- preserves _ (google.maps.Marker_setMap _ _) => unfold google.maps.Marker_setMap
    | |- preserves _ (google.maps.Map_setCenter _ _) => unfold google.maps.Map_setCenter
    | |- preserves _ (google.maps.Map_setZoom _ _) => unfold google.maps.Map_setZoom
    | |- preserves _ (google.maps.Map_getZoom _) => unfold google.maps.Map_getZoom
    | |- preserves _ (google.maps.event.addListener _ _ _) =>
        unfold google.maps.event.addListener
    | |- preserves _ (google.maps.new_Marker _) => intros ? ?; cbn [fst google.maps.new_Marker]
    | |- preserves _ (google.maps.new_Map _ _) => intros ? ?; cbn [fst google.maps.new_Map]
    | |- preserves _ (allocate _) => intros ? ?; cbn [fst allocate]
    | |- preserves _ (setCenter _ _) => unfold setCenter; cbv zeta
    | |- preserves _ (setZoom _ _) => unfold setZoom
    | |- preserves _ (addMarkers _ _ _) => unfold addMarkers; cbv zeta
    | |- preserves _ (assignMarkerEvent _ _ _ _) => unfold assignMarkerEvent
    | |- preserves _ (setAllMap _ _) => unfold setAllMap; cbv zeta
    | |- preserves _ (clearMarkers _) => unfold clearMarkers
    | |- preserves _ (showMarkers _) => unfold showMarkers
    | |- preserves _ (deleteMarkers _) => unfold deleteMarkers
    | |- preserves _ (registerMapZoomEvent _ _) => unfold registerMapZoomEvent
    | |- preserves _ (registerMapClickEvent _ _) => unfold registerMapClickEvent
    | |- preserves _ (onMapInteract _ _ _) => unfold onMapInteract; cbv zeta
    | |- preserves _ (getZoom _) => unfold getZoom
    | |- preserves _ (init _) => unfold init; cbv zeta
    | |- preserves _ (new_Map _ _) => unfold new_Map; cbv zeta
    | |- preserves _ (invoke _ ?c) => destruct c; cbn [invoke]
    | |- preserves _ (run_listener ?h _ _) => destruct h; cbn [run_listener]
    | |- preserves _ (match ?x with _ => _ end) => destruct x
    end.

Lemma preserves_run_listeners (I : World -> Prop) (this : Target) (event : value) :
  (forall h, preserves I (run_listener h this event)) ->
  forall rs, preserves I (run_listeners rs this event).
Proof.
  intros Hh. induction rs as [|r rs IH]; cbn [run_listeners].
  - apply preserves_ret.
  - apply preserves_bind; [apply Hh | intros _; exact IH].
Qed.

Lemma preserves_trigger (I : World -> Prop) (instance : Target) (eventName : string)
    (event : value) :
  (forall h, preserves I (run_listener h instance event)) ->
  preserves I (trigger instance eventName event).
Proof.
  intros Hh. unfold trigger. apply preserves_bind; [apply preserves_get_world|].
  intros w0. apply preserves_run_listeners, Hh.
Qed.

(** X16.  A method called on one facade changes no field of any other
    facade, whatever the method and its arguments, and whether it returns
    or throws: facades built from the same constructor are independent. *)
Theorem invoke_leaves_other_facades (this other : fref) (c : Call) (w : World) :
  other <> this ->
  facades (fst (invoke this c w)) !! other = facades w !! other.
Proof.
  intros Hne.
  assert (forall x, preserves (fun w => facades w !! other = x) (invoke this c)) as H.
  { intros x. preserve_all; cbn; try assumption;
      rewrite list_lookup_alter_ne by congruence; assumption. }
  apply (H (facades w !! other) w eq_refl).
Qed.

Lemma invoke_leaves_other_facades_witness :
  facades (fst (invoke 0 call_deleteMarkers
                  (fst (new_Map (VString "#other") (VObject []) pinned_world)))) !! 1
  = facades (fst (new_Map (VString "#other") (VObject []) pinned_world)) !! 1.
Proof.
  apply (invoke_leaves_other_facades 0 1 call_deleteMarkers
           (fst (new_Map (VString "#other") (VObject []) pinned_world))).
  discriminate.
Defined.

Lemma grows_refl (w : World) : grows w w.
Proof.
  split; try reflexivity.
  - intros r m Hm. exists m. auto.
  - intros r g Hg. exists g. auto.
  - intros t f Hf. exists f. repeat split; auto.
Qed.

Lemma grows_trans (w1 w2 w3 : World) : grows w1 w2 -> grows w2 w3 -> grows w1 w3.
Proof.
  intros [L1 C1 M1 W1 F1] [L2 C2 M2 W2 F2]. split.
  - etransitivity; eassumption.
  - etransitivity; eassumption.
  - intros r m Hm. destruct (M1 _ _ Hm) as (m' & Hm' & ? & ? & ?).
    destruct (M2 _ _ Hm') as (m'' & Hm'' & ? & ? & ?).
    exists m''. repeat split; congruence.
  - intros r g Hg. destruct (W1 _ _ Hg) as (g' & Hg' & ? & ?).
    destruct (W2 _ _ Hg') as (g'' & Hg'' & ? & ?).
    exists g''. repeat split; congruence.
  - intros t f Hf. destruct (F1 _ _ Hf) as (f' & Hf' & ? & ? & ? & ? & ?).
    destruct (F2 _ _ Hf') as (f'' & Hf'' & ? & ? & ? & ? & ?).
    exists f''. repeat split; try congruence; etransitivity; eassumption.
Qed.

Lemma grows_calls_step w x : grows w (with_calls (calls w ++ x) w).
Proof.
  destruct (grows_refl w) as [L C M W F]. split; try assumption.
  cbn. apply prefix_app_r. reflexivity.
Qed.

Lemma grows_listener_step w x : grows w (with_listeners (listeners w ++ x) w).
Proof.
  destruct (grows_refl w) as [L C M W F]. split; try assumption.
  cbn. apply prefix_app_r. reflexivity.
Qed.

Lemma grows_new_marker_step w x : grows w (with_marker_store (marker_store w ++ x) w).
Proof.
  destruct (grows_refl w) as [L C M W F]. split; try assumption.
  cbn. intros r m Hm. exists m. rewrite (lookup_app_l_Some _ _ _ _ Hm). auto.
Qed.

Lemma grows_setMap_step w r _map :
  grows w (with_marker_store (alter (with_marker_map _map) r (marker_store w)) w).
Proof.
  destruct (grows_refl w) as [L C M W F]. split; try assumption.
  cbn. intros r' m Hm. destruct (decide (r = r')) as [->|Hne].
  - exists (with_marker_map _map m). rewrite list_lookup_alter_eq, Hm. auto.
  - exists m. rewrite list_lookup_alter_ne by exact Hne. auto.
Qed.

Lemma grows_new_widget_step w x : grows w (with_widget_store (widget_store w ++ x) w).
Proof.
  destruct (grows_refl w) as [L C M W F]. split; try assumption.
  cbn. intros r g Hg. exists g. rewrite (lookup_app_l_Some _ _ _ _ Hg). auto.
Qed.

Lemma grows_alter_widget_step w r (h : Widget -> Widget) :
  (forall g, view (h g) = view g /\ widget_options (h g) = widget_options g) ->
  grows w (with_widget_store (alter h r (widget_store w)) w).
Proof.
  intros Hh. destruct (grows_refl w) as [L C M W F]. split; try assumption.
  cbn. intros r' g Hg. destruct (decide (r = r')) as [->|Hne].
  - exists (h g). rewrite list_lookup_alter_eq, Hg. destruct (Hh g). auto.
  - exists g. rewrite list_lookup_alter_ne by exact Hne. auto.
Qed.

Lemma grows_new_facade_step w x : grows w (with_facades (facades w ++ x) w).
Proof.
  destruct (grows_refl w) as [L C M W F]. split; try assumption.
  cbn. intros t f Hf. exists f. rewrite (lookup_app_l_Some _ _ _ _ Hf).
  repeat split; reflexivity.
Qed.

Lemma grows_alter_facade_step w this (h : Map -> Map) :
  (forall f, elem (h f) = elem f /\ icon (h f) = icon f
             /\ mapOptions (h f) = mapOptions f
             /\ mapClickCallbacks f `prefix_of` mapClickCallbacks (h f)
             /\ mapZoomCallbacks f `prefix_of` mapZoomCallbacks (h f)) ->
  grows w (with_facades (alter h this (facades w)) w).
Proof.
  intros Hh. destruct (grows_refl w) as [L C M W F]. split; try assumption.
  cbn. intros t f Hf. destruct (decide (this = t)) as [->|Hne].
  - exists (h f). rewrite list_lookup_alter_eq, Hf. split; [reflexivity|]. apply Hh.
  - exists f. rewrite list_lookup_alter_ne by exact Hne.
    split; [exact Hf|]. repeat split; reflexivity.
Qed.

(** Each single change of the store, seen from an earlier store [w0]. *)
Ltac grows_step :=
  match goal with
  | H : grows ?w0 ?w |- grows ?w0 _ =>
      apply (grows_trans w0 w _ H);
      first [ apply grows_calls_step
            | apply grows_listener_step
            | apply grows_new_marker_step
            | apply grows_setMap_step
            | apply grows_new_widget_step
            | apply grows_new_facade_step
            | apply grows_alter_widget_step; intros ?; split; reflexivity
            | apply grows_alter_facade_step; intros ?; cbn;
              repeat split; first [reflexivity | apply prefix_app_r; reflexivity] ]
  end.

Lemma preserves_grows_invoke (w0 : World) (this : fref) (c : Call) :
  preserves (grows w0) (invoke this c).
Proof. preserve_all; first [assumption | grows_step]. Qed.

Lemma preserves_grows_trigger (w0 : World) (instance : Target) (eventName : string)
    (event : value) :
  preserves (grows w0) (trigger instance eventName event).
Proof.
  apply preserves_trigger. intros h.
  preserve_all; first [assumption | grows_step].
Qed.

(** X17.  Nothing is ever taken away.  Through any sequence of
    constructions, method calls and events, every listener stays
    registered and every recorded call stays recorded, in order; every
    marker stays in the store with its position, icon and data (also
    after [deleteMarkers]); every widget keeps its element and options;
    and every facade keeps its element, icon and widget options and every
    callback registered on it, in order: there is no way to unregister a
    callback or to detach a listener. *)
Theorem nothing_is_taken_away (allowed : Call -> World -> Prop) (w w' : World) :
  rtc (step allowed) w w' -> grows w w'.
Proof.
  induction 1 as [w|w1 w2 w3 Hstep _ IH]; [apply grows_refl|].
  apply (grows_trans w1 w2 w3); [|exact IH].
  destruct Hstep as [el opts w | this c w _ | this w | instance eventName event w].
  - assert (preserves (grows w) (new_Map el opts)) as H
      by (preserve_all; first [assumption | grows_step]).
    apply H, grows_refl.
  - apply preserves_grows_invoke, grows_refl.
  - assert (preserves (grows w) (getZoom this)) as H
      by (preserve_all; first [assumption | grows_step]).
    apply H, grows_refl.
  - apply preserves_grows_trigger, grows_refl.
Qed.

Lemma nothing_is_taken_away_witness :
  grows pinned_world
    (fst (trigger (OnMarker 0) "click" VUndefined
            (fst (invoke 0 call_deleteMarkers pinned_world)))).
Proof.
  apply (nothing_is_taken_away (fun _ _ => True) pinned_world).
  eapply rtc_l; [apply (step_invoke _ 0 call_deleteMarkers pinned_world); exact Logic.I|].
  apply rtc_once. apply step_trigger.
Defined.

(* ===================================================================== *)
(** ** Events never raise *)
(* ===================================================================== *)

Lemma ready_same_facades (w w' : World) (h : Listener) :
  facades w' = facades w -> ready w h -> ready w' h.
Proof. intros E. destruct h; cbn; rewrite ?E; auto. Qed.

Lemma wired_same (w w' : World) :
  facades w' = facades w -> listeners w' = listeners w -> wired w -> wired w'.
Proof.
  unfold wired. intros Ef El H. rewrite El.
  eapply Forall_impl; [exact H|]. intros reg. apply ready_same_facades, Ef.
Qed.

Lemma wired_marker_listener w r eventName callback :
  wired w ->
  wired (with_listeners
           (listeners w ++
              [ {| target := OnMarker r; event_name := eventName;
                   handler := MarkerListener callback |} ]) w).
Proof.
  intros H. unfold wired. cbn. apply Forall_app. split; [exact H|].
  constructor; [exact Logic.I|constructor].
Qed.

Lemma wired_alter_facade w this (h : Map -> Map) :
  (forall f widget, map f = Some widget -> exists widget', map (h f) = Some widget') ->
  wired w -> wired (with_facades (alter h this (facades w)) w).
Proof.
  intros Hh H. unfold wired in *. cbn.
  eapply Forall_impl; [exact H|]. intros reg.
  unfold ready; destruct (handler reg) as [cb|t|t]; cbn; [auto| |];
    intros (f & widget & Hf & Hmap);
    (destruct (decide (this = t)) as [->|Hne];
     [ destruct (Hh _ _ Hmap) as [widget' Hmap'];
       exists (h f), widget'; rewrite list_lookup_alter_eq, Hf; auto
     | exists f, widget; rewrite list_lookup_alter_ne by exact Hne; auto ]).
Qed.

Lemma wired_new_facade w f : wired w -> wired (with_facades (facades w ++ [f]) w).
Proof.
  intros H. unfold wired in *. cbn.
  eapply Forall_impl; [exact H|]. intros reg.
  unfold ready; destruct (handler reg) as [cb|t|t]; cbn; [auto| |];
    intros (f0 & widget & Hf & Hmap);
    exists f0, widget; rewrite (lookup_app_l_Some _ _ _ _ Hf); auto.
Qed.

Ltac wired_step :=
  first
    [ assumption
    | match goal with
      | H : wired ?w |- wired _ => apply (wired_same w); [reflexivity | reflexivity | exact H]
      end
    | apply wired_marker_listener; assumption
    | apply wired_new_facade; assumption
    | apply wired_alter_facade; [intros ? ? ?; cbn; eauto | assumption] ].

Lemma preserves_wired_init (this : fref) : preserves wired (init this).
Proof.
  intros w Hw. destruct (facades w !! this) as [f|] eqn:Hf.
  - rewrite (run_init _ _ _ Hf). cbn [fst]. unfold wired in *. cbn.
    assert (<[this := with_map (Some (length (widget_store w))) f]> (facades w) !! this
            = Some (with_map (Some (length (widget_store w))) f)) as Hf'.
    { apply list_lookup_insert_eq. eapply lookup_lt_Some, Hf. }
    apply Forall_app. split.
    + eapply Forall_impl; [exact Hw|]. intros reg.
      unfold ready; destruct (handler reg) as [cb|t|t]; cbn; [auto| |];
        intros (f0 & widget & Hf0 & Hmap);
        (destruct (decide (this = t)) as [->|Hne];
         [ eexists _, _; split; [exact Hf'|reflexivity]
         | exists f0, widget; rewrite list_lookup_insert_ne by exact Hne; auto ]).
    + repeat constructor; cbn; eexists _, _; (split; [exact Hf'|reflexivity]).
  - unfold init. cbv zeta.
    rewrite (run_bind_Throw _ _ _ _ _ (run_deref_dangling _ _ Hf)). exact Hw.
Qed.

Lemma preserves_wired_invoke (this : fref) (c : Call) : preserves wired (invoke this c).
Proof.
  destruct c; cbn [invoke]; try apply preserves_wired_init;
    preserve_all; wired_step.
Qed.

Lemma preserves_wired_trigger (instance : Target) (eventName : string) (event : value) :
  preserves wired (trigger instance eventName event).
Proof. apply preserves_trigger. intros h. preserve_all; wired_step. Qed.

Lemma Forall_filter {A} (P : A -> Prop) (keep : A -> bool) (l : list A) :
  Forall P l -> Forall P (List.filter keep l).
Proof.
  induction 1 as [|x l Hx _ IH]; cbn; [constructor|].
  destruct (keep x); [constructor|]; assumption.
Qed.

Lemma functions_fmap (gs : list fn) : functions (VFunction <$> gs) = gs.
Proof. induction gs as [|g gs IH]; [reflexivity|]. cbn. f_equal. exact IH. Qed.

Lemma run_listener_calls (w : World) (h : Listener) (this : Target) (event : value) :
  well_formed w -> ready w h ->
  run_listener h this event w
  = (with_calls (calls w ++ listener_calls w this event h) w, Return tt).
Proof.
  intros Hw Hready. destruct h as [callback|t|t]; cbn [run_listener listener_calls].
  - destruct callback; cbn;
      try (rewrite app_nil_r, with_calls_id; reflexivity).
    unfold this_data. destruct this as [r|r]; run; reflexivity.
  - destruct Hready as (f & widget & Hf & _). rewrite Hf.
    destruct (well_formed_onMapInteract t name_mapClickCallbacks event f w Hw Hf)
      as (gs & Hgs & Hrun).
    cbn [array_property] in Hgs. rewrite Hgs, functions_fmap.
    rewrite (run_bind_Return _ _ _ _ _ Hrun). reflexivity.
  - destruct Hready as (f & widget & Hf & Hmap). rewrite Hf, Hmap.
    destruct (well_formed_facade _ _ _ Hw Hf) as [_ Hwidget _ _].
    destruct (lookup_lt_is_Some_2 _ _ (Hwidget _ Hmap)) as [g Hg]. rewrite Hg.
    rewrite (run_bind_Return _ _ _ _ _ (run_getZoom _ _ _ _ _ Hf Hmap Hg)).
    destruct (well_formed_onMapInteract t name_mapZoomCallbacks (current_zoom g) f w Hw Hf)
      as (gs & Hgs & Hrun).
    cbn [array_property] in Hgs. rewrite Hgs, functions_fmap.
    rewrite (run_bind_Return _ _ _ _ _ Hrun). reflexivity.
Qed.

Lemma run_listeners_calls (this : Target) (event : value) :
  forall (rs : list Registration) (w : World),
    well_formed w -> Forall (fun reg => ready w (handler reg)) rs ->
    run_listeners rs this event w
    = (with_calls
         (calls w
          ++ List.flat_map (fun reg => listener_calls w this event (handler reg)) rs) w,
       Return tt).
Proof.
  induction rs as [|reg rs IH]; intros w Hw Hrs.
  - cbn. rewrite app_nil_r, with_calls_id. reflexivity.
  - apply Forall_cons in Hrs as [Hreg Hrs]. cbn [run_listeners List.flat_map].
    rewrite (run_bind_Return _ _ _ _ _ (run_listener_calls w _ this event Hw Hreg)).
    rewrite (IH (with_calls (calls w ++ listener_calls w this event (handler reg)) w)
               (well_formed_calls _ _ Hw) Hrs).
    cbn. rewrite <- app_assoc. reflexivity.
Qed.

Lemma ready_complete (w : World) (h : Listener) :
  well_formed w -> ready w h -> listener_complete w h.
Proof.
  intros Hw Hready. destruct h as [callback|t|t]; cbn in *; [exact Logic.I| |].
  - destruct Hready as (f & widget & Hf & _).
    destruct (well_formed_facade _ _ _ Hw Hf) as [_ _ Hc _].
    destruct (callable_functions _ Hc) as [gs Hgs].
    exists f. split; [exact Hf|]. rewrite Hgs, functions_fmap. reflexivity.
  - destruct Hready as (f & widget & Hf & Hmap).
    destruct (well_formed_facade _ _ _ Hw Hf) as [_ Hwidget _ Hz].
    destruct (lookup_lt_is_Some_2 _ _ (Hwidget _ Hmap)) as [g Hg].
    destruct (callable_functions _ Hz) as [gs Hgs].
    exists f, widget, g. repeat split; try assumption.
    rewrite Hgs, functions_fmap. reflexivity.
Qed.

Lemma reachable_invariants (w : World) :
  rtc (step names_existing) empty_world w -> well_formed w /\ wired w.
Proof.
  intros Hreach.
  apply (rtc_ind_r (R := step names_existing) (fun w => well_formed w /\ wired w)
           empty_world); [split; [apply well_formed_empty | constructor] | | exact Hreach].
  intros w1 w2 _ Hstep [Hwf Hwired].
  destruct Hstep as [el opts w1 | this c w1 Hc | this w1 | instance eventName event w1].
  - split; [apply preserves_new_Map_well_formed, Hwf|].
    assert (preserves wired (new_Map el opts)) as H by (preserve_all; wired_step).
    apply H, Hwired.
  - split; [apply well_formed_invoke; assumption | apply preserves_wired_invoke, Hwired].
  - split; [apply preserves_getZoom_well_formed, Hwf|].
    assert (preserves wired (getZoom this)) as H by (preserve_all; wired_step).
    apply H, Hwired.
  - split; [apply preserves_trigger_well_formed, Hwf
           | apply preserves_wired_trigger, Hwired].
Qed.

(** X18.  What an event calls.  In every store the page can reach, an
    event fired on any marker or widget, under any name, runs every
    listener registered for it, in registration order, and the trace of
    calls grows by exactly the calls of those listeners ([event_calls]):
    a marker listener calls its callback, when that is a function, with
    the marker's data; the click listener of a facade calls the entries
    of [mapClickCallbacks], in order, with the event; the zoom_changed
    listener calls the entries of [mapZoomCallbacks], in order, with the
    widget's zoom.  Nothing else in the store changes.  No entry is passed
    over and the facade's own code raises nothing on the way: every
    registered map listener finds its facade, the callback list it walks
    holds functions only, and the zoom_changed listener finds the
    facade's widget.  User functions are taken to return normally, as
    [call] has it; nothing is said of a callback that raises. *)
Theorem event_calls_every_listener (w : World) (instance : Target) (eventName : string)
    (event : value) :
  rtc (step names_existing) empty_world w ->
  trigger instance eventName event w
  = (with_calls (calls w ++ event_calls w instance eventName event) w, Return tt)
  /\ Forall (fun reg => listener_complete w (handler reg)) (listeners w).
Proof.
  intros Hreach. destruct (reachable_invariants w Hreach) as [Hwf Hwired]. split.
  - unfold trigger, event_calls. rewrite run_bind. cbn [get_world].
    apply run_listeners_calls; [exact Hwf|].
    apply Forall_filter, Hwired.
  - eapply Forall_impl; [exact Hwired|].
    intros reg Hreg. apply ready_complete; assumption.
Qed.

Lemma event_calls_every_listener_witness :
  trigger (OnWidget 0) "zoom_changed" VUndefined watched_world
  = (with_calls
       (calls watched_world
        ++ event_calls watched_world (OnWidget 0) "zoom_changed" VUndefined)
       watched_world, Return tt)
  /\ Forall (fun reg => listener_complete watched_world (handler reg))
       (listeners watched_world).
Proof.
  apply (event_calls_every_listener watched_world (OnWidget 0) "zoom_changed" VUndefined).
  eapply rtc_l;
    [apply (step_new names_existing (VString "#map") (VObject []) empty_world)|].
  eapply rtc_l;
    [apply (step_invoke names_existing 0 call_init new_world); exact Logic.I|].
  eapply rtc_l;
    [apply (step_invoke names_existing 0
              (call_addMarkers [entry_a; entry_b] (VFunction "onPin")) live_world);
     exact Logic.I|].
  apply rtc_once.
  apply (step_invoke names_existing 0
           (call_registerMapZoomEvent (VFunction "onZoom")) pinned_world).
  exact Logic.I.
Defined.

(** In [watched_world] a zoom_changed event on the widget calls [onZoom]
    with the widget's zoom, and a click on the second marker calls [onPin]
    with that marker's entry. *)
Example event_calls_read_back :
  event_calls watched_world (OnWidget 0) "zoom_changed" VUndefined
  = [("onZoom", VInt 4)]
  /\ calls (fst (trigger (OnWidget 0) "zoom_changed" VUndefined watched_world))
     = [("onZoom", VInt 4)]
  /\ event_calls watched_world (OnMarker 1) "click" VUndefined = [("onPin", entry_b)]
  /\ calls (fst (trigger (OnMarker 1) "click" VUndefined watched_world))
     = [("onPin", entry_b)].
Proof. repeat split. Qed.

Lemma reachable_well_formed_witness : well_formed pinned_world.
Proof.
  apply (reachable_well_formed pinned_world).
  eapply rtc_l;
    [apply (step_new names_existing (VString "#map") (VObject []) empty_world)|].
  eapply rtc_l;
    [apply (step_invoke names_existing 0 call_init new_world); exact Logic.I|].
  apply rtc_once.
  apply (step_invoke names_existing 0
           (call_addMarkers [entry_a; entry_b] (VFunction "onPin")) live_world).
  exact Logic.I.
Defined.
